(** * The relay session of the Revolt Motors voice assistant (main.py)

    A shallow embedding of [GeminiLiveSession] and [websocket_endpoint]:
    JSON values as Python sees them after [json.loads], the Python operations
    the relay applies to them ([in], subscripting, [.get], [==], iteration),
    and the coroutines as computations in a state, output and exception monad.

    The state is the session object together with what the environment will
    answer (the credential, the outcome of the connection attempt and of each
    send); the output is the sequence of calls the relay makes on its two
    sockets and on the logger, in program order. *)

From Stdlib Require Import String Ascii List Bool ZArith Lia.
Import ListNotations.
Open Scope string_scope.

(** ** JSON values *)

(** What [json.loads] and [iter_json] hand to the relay.  A dict is kept as the
    list of its items in insertion order; [lookup] reads the first item with a
    given key. *)
#[local] Unset Elimination Schemes.
Inductive json : Type :=
| JNull
| JBool (b : bool)
| JInt (n : Z)
| JFloat (literal : string)
| JStr (s : string)
| JArr (items : list json)
| JObj (fields : list (string * json)).
#[local] Set Elimination Schemes.

Fixpoint lookup (k : string) (fields : list (string * json)) : option json :=
  match fields with
  | [] => None
  | (k', v) :: rest => if String.eqb k k' then Some v else lookup k rest
  end.

(** ** Exceptions *)

Inductive exn_class : Type :=
| KeyError
| TypeError
| AttributeError
| ValueError
| JSONDecodeError
| ConnectionClosed
| WebSocketDisconnect
| OtherException.

(** An exception object: its class and [str(e)]. *)
Record exn : Type := mk_exn { class_of : exn_class; str : string }.

Inductive outcome (A : Type) : Type :=
| Ok (a : A)
| Raise (e : exn).
Arguments Ok {A} a.
Arguments Raise {A} e.

(** ** The Python operations used on messages *)

Definition type_name (v : json) : string :=
  match v with
  | JNull => "NoneType"
  | JBool _ => "bool"
  | JInt _ => "int"
  | JFloat _ => "float"
  | JStr _ => "str"
  | JArr _ => "list"
  | JObj _ => "dict"
  end.

(** [v == s] for a string literal [s]. *)
Definition py_eq_str (v : json) (s : string) : bool :=
  match v with
  | JStr t => String.eqb t s
  | _ => false
  end.

Fixpoint is_substring (k s : string) : bool :=
  if String.prefix k s then true
  else match s with
       | EmptyString => false
       | String _ s' => is_substring k s'
       end.

(** [k in v]: key membership on a dict, element membership on a list,
    substring test on a string, [TypeError] on anything else. *)
Definition py_contains (k : string) (v : json) : outcome bool :=
  match v with
  | JObj fields => Ok (match lookup k fields with Some _ => true | None => false end)
  | JArr items => Ok (existsb (fun x => py_eq_str x k) items)
  | JStr s => Ok (is_substring k s)
  | _ => Raise (mk_exn TypeError
                  ("argument of type '" ++ type_name v ++ "' is not iterable"))
  end.

(** [v[k]] for a string key [k]. *)
Definition py_getitem (v : json) (k : string) : outcome json :=
  match v with
  | JObj fields =>
      match lookup k fields with
      | Some x => Ok x
      | None => Raise (mk_exn KeyError ("'" ++ k ++ "'"))
      end
  | JArr _ => Raise (mk_exn TypeError "list indices must be integers or slices, not str")
  | JStr _ => Raise (mk_exn TypeError "string indices must be integers, not 'str'")
  | _ => Raise (mk_exn TypeError ("'" ++ type_name v ++ "' object is not subscriptable"))
  end.

(** [v.get(k)]. *)
Definition py_get (v : json) (k : string) : outcome json :=
  match v with
  | JObj fields =>
      match lookup k fields with
      | Some x => Ok x
      | None => Ok JNull
      end
  | _ => Raise (mk_exn AttributeError
                  ("'" ++ type_name v ++ "' object has no attribute 'get'"))
  end.

Fixpoint chars (s : string) : list json :=
  match s with
  | EmptyString => []
  | String c s' => JStr (String c EmptyString) :: chars s'
  end.

(** The values a [for x in v] loop visits: the elements of a list, the keys of
    a dict, the characters of a string. *)
Definition py_iter (v : json) : outcome (list json) :=
  match v with
  | JArr items => Ok items
  | JObj fields => Ok (map (fun kv => JStr (fst kv)) fields)
  | JStr s => Ok (chars s)
  | _ => Raise (mk_exn TypeError ("'" ++ type_name v ++ "' object is not iterable"))
  end.

(** ** Calls on the outside world *)

Inductive level : Type := INFO | ERROR.

Inductive log_arg : Type :=
| NoArg
| ExnArg (e : exn)
| ValArg (v : json).

(** The calls the relay makes, recorded when they are made: a send that raises
    is in the trace like one that returns.  [Log lvl text arg] is a logger call
    whose f-string is [text] followed by the interpolated [arg]. *)
Inductive event : Type :=
| Accept                         (* await websocket.accept() *)
| Connect (url : string)         (* await websockets.connect(url) *)
| UpSend (payload : json)        (* await self.gemini_ws.send(json.dumps(payload)) *)
| UpClose                        (* await self.gemini_ws.close() *)
| DownSend (payload : json)      (* await <client websocket>.send_json(payload) *)
| CreateTask                     (* asyncio.create_task(self.listen_to_gemini()) *)
| Log (lvl : level) (text : string) (arg : log_arg).

(** ** The session and its environment *)

(** The session object, the control state of its two coroutines, and what the
    environment answers.  A send whose outcome the environment does not state
    succeeds: past the end of [up_results] or [down_results] every call
    returns normally. *)
Record world : Type := mk_world {
  gemini_ws : bool;                  (* self.gemini_ws is not None *)
  is_connected : bool;               (* self.is_connected *)
  registered : bool;                 (* id(session) in active_sessions *)
  serving : bool;                    (* websocket_endpoint has not reached its finally *)
  listening : bool;                  (* the listen_to_gemini task is in its loop *)
  api_key : option string;           (* os.getenv("GEMINI_API_KEY") *)
  connect_result : option exn;       (* None: websockets.connect returns a connection *)
  up_results : list (option exn);    (* outcomes of the successive gemini_ws.send calls *)
  down_results : list (option exn)   (* outcomes of the successive send_json calls *)
}.

Definition set_gemini_ws (b : bool) (w : world) : world :=
  mk_world b (is_connected w) (registered w) (serving w) (listening w)
           (api_key w) (connect_result w) (up_results w) (down_results w).

Definition set_is_connected (b : bool) (w : world) : world :=
  mk_world (gemini_ws w) b (registered w) (serving w) (listening w)
           (api_key w) (connect_result w) (up_results w) (down_results w).

Definition set_registered (b : bool) (w : world) : world :=
  mk_world (gemini_ws w) (is_connected w) b (serving w) (listening w)
           (api_key w) (connect_result w) (up_results w) (down_results w).

Definition set_serving (b : bool) (w : world) : world :=
  mk_world (gemini_ws w) (is_connected w) (registered w) b (listening w)
           (api_key w) (connect_result w) (up_results w) (down_results w).

Definition set_listening (b : bool) (w : world) : world :=
  mk_world (gemini_ws w) (is_connected w) (registered w) (serving w) b
           (api_key w) (connect_result w) (up_results w) (down_results w).

Definition set_up_results (r : list (option exn)) (w : world) : world :=
  mk_world (gemini_ws w) (is_connected w) (registered w) (serving w) (listening w)
           (api_key w) (connect_result w) r (down_results w).

Definition set_down_results (r : list (option exn)) (w : world) : world :=
  mk_world (gemini_ws w) (is_connected w) (registered w) (serving w) (listening w)
           (api_key w) (connect_result w) (up_results w) r.

(** ** The monad of coroutine bodies *)

Definition M (A : Type) : Type := world -> outcome A * world * list event.

Definition ret {A} (a : A) : M A := fun w => (Ok a, w, []).

Definition raise {A} (e : exn) : M A := fun w => (Raise e, w, []).

Definition bind {A B} (m : M A) (k : A -> M B) : M B :=
  fun w =>
    match m w with
    | (Ok a, w1, out1) =>
        match k a w1 with
        | (r, w2, out2) => (r, w2, (out1 ++ out2)%list)
        end
    | (Raise e, w1, out1) => (Raise e, w1, out1)
    end.

Notation "x <- m ;; k" := (bind m (fun x => k))
  (at level 61, m at next level, right associativity).
Notation "m ;; k" := (bind m (fun _ => k))
  (at level 61, right associativity).

Definition lift {A} (r : outcome A) : M A := fun w => (r, w, []).

(** [try: body except Exception as e: handler e] *)
Definition try_except {A} (body : M A) (handler : exn -> M A) : M A :=
  fun w =>
    match body w with
    | (Ok a, w1, out1) => (Ok a, w1, out1)
    | (Raise e, w1, out1) =>
        match handler e w1 with
        | (r, w2, out2) => (r, w2, (out1 ++ out2)%list)
        end
    end.

Definition emit (ev : event) : M unit := fun w => (Ok tt, w, [ev]).

Definition modify (f : world -> world) : M unit := fun w => (Ok tt, f w, []).

Definition get {A} (f : world -> A) : M A := fun w => (Ok (f w), w, []).

Definition logger_info (text : string) (arg : log_arg) : M unit :=
  emit (Log INFO text arg).

Definition logger_error (text : string) (arg : log_arg) : M unit :=
  emit (Log ERROR text arg).

(** [await self.client_ws.send_json(payload)] *)
Definition client_send_json (payload : json) : M unit :=
  fun w =>
    let w' := set_down_results (tl (down_results w)) w in
    match hd None (down_results w) with
    | None => (Ok tt, w', [DownSend payload])
    | Some e => (Raise e, w', [DownSend payload])
    end.

(** [await self.gemini_ws.send(json.dumps(payload))] *)
Definition gemini_send (payload : json) : M unit :=
  fun w =>
    let w' := set_up_results (tl (up_results w)) w in
    match hd None (up_results w) with
    | None => (Ok tt, w', [UpSend payload])
    | Some e => (Raise e, w', [UpSend payload])
    end.

Fixpoint for_each {A} (body : A -> M unit) (l : list A) : M unit :=
  match l with
  | [] => ret tt
  | x :: rest => body x ;; for_each body rest
  end.

(** ** GeminiLiveSession.handle_gemini_message *)

Definition audio_response (data : json) : json :=
  JObj [("type", JStr "audio_response"); ("audio_data", data)].

Definition text_response (text : json) : json :=
  JObj [("type", JStr "text_response"); ("text", text)].

Definition turn_complete : json := JObj [("type", JStr "turn_complete")].

Definition setup_complete : json := JObj [("type", JStr "setup_complete")].

(** The body of [for part in parts]. *)
Definition forward_part (part : json) : M unit :=
  has_inline <- lift (py_contains "inlineData" part) ;;
  is_audio <- (if has_inline : bool then
                 inline <- lift (py_getitem part "inlineData") ;;
                 mime <- lift (py_getitem inline "mimeType") ;;
                 ret (py_eq_str mime "audio/pcm")
               else ret false) ;;
  if is_audio : bool then
    inline <- lift (py_getitem part "inlineData") ;;
    data <- lift (py_getitem inline "data") ;;
    client_send_json (audio_response data)
  else
    has_text <- lift (py_contains "text" part) ;;
    if has_text : bool then
      text <- lift (py_getitem part "text") ;;
      client_send_json (text_response text)
    else ret tt.

Definition handle_gemini_message (message : json) : M unit :=
  has_content <- lift (py_contains "serverContent" message) ;;
  if has_content : bool then
    server_content <- lift (py_getitem message "serverContent") ;;
    has_turn <- lift (py_contains "modelTurn" server_content) ;;
    if has_turn : bool then
      model_turn <- lift (py_getitem server_content "modelTurn") ;;
      parts <- lift (py_getitem model_turn "parts") ;;
      items <- lift (py_iter parts) ;;
      for_each forward_part items
    else
      has_complete <- lift (py_contains "turnComplete" server_content) ;;
      if has_complete : bool then client_send_json turn_complete
      else ret tt
  else
    has_setup <- lift (py_contains "setupComplete" message) ;;
    if has_setup : bool then
      logger_info "Gemini setup completed" NoArg ;;
      client_send_json setup_complete
    else ret tt.

(** ** Configuration *)

Definition GEMINI_WS_URL : string :=
  "wss://generativelanguage.googleapis.com/ws/google.ai.generativelanguage.v1alpha.GenerativeService.BidiGenerateContent".

(** The double-quote character. *)
Definition dq : string := String (ascii_of_nat 34) EmptyString.

Definition SYSTEM_INSTRUCTION : string :=
  "You are Rev, the voice assistant for Revolt Motors - India's first AI-enabled electric motorcycle company. 

Key information about Revolt Motors:
- We manufacture premium electric motorcycles including RV400 and RV1+ models
- Our motorcycles feature AI-enabled technology and smart connectivity
- We have a subscription-based ownership model called " ++ dq ++
  "My Revolt Plan" ++ dq ++
  "
- Our bikes offer 0-80 kmph acceleration and long-range battery performance
- We have charging stations across major Indian cities
- Our mobile app allows remote bike control and monitoring
- Price range: RV1+ starts around â‚¹84,990, RV400 around â‚¹1.38 lakhs
- Available in multiple cities across India
- Key features: 3 riding modes, mobile app connectivity, portable battery

Guidelines:
- Keep responses conversational, helpful, and concise (2-3 sentences max)
- Focus only on Revolt Motors products, services, and related electric mobility topics
- If asked about competitors or unrelated topics, politely redirect to Revolt Motors
- Be enthusiastic about electric mobility and sustainable transportation
- Help with inquiries about pricing, features, test rides, and dealership locations
- Speak naturally as if you're a knowledgeable brand representative
- Use simple, clear language suitable for voice interaction".

(** ** GeminiLiveSession.setup_session *)

Definition setup_message : json :=
  JObj [("setup", JObj [
    ("model", JStr "models/gemini-2.0-flash-live-001");
    ("generation_config", JObj [
       ("response_modalities", JArr [JStr "AUDIO"]);
       ("speech_config", JObj [
          ("voice_config", JObj [
             ("prebuilt_voice_config", JObj [("voice_name", JStr "Aoede")])])])]);
    ("system_instruction", JObj [
       ("parts", JArr [JObj [("text", JStr SYSTEM_INSTRUCTION)]])])])].

Definition setup_session : M unit :=
  gemini_send setup_message ;;
  logger_info "Session setup sent to Gemini" NoArg.

(** ** GeminiLiveSession.connect_to_gemini *)

Definition connection_status (status : string) : json :=
  JObj [("type", JStr "connection_status"); ("status", JStr status)].

Definition error_envelope (message : string) : json :=
  JObj [("type", JStr "error"); ("message", JStr message)].

(** [self.gemini_ws = await websockets.connect(url)] *)
Definition websockets_connect (url : string) : M unit :=
  fun w =>
    match connect_result w with
    | None => (Ok tt, set_gemini_ws true w, [Connect url])
    | Some e => (Raise e, w, [Connect url])
    end.

(** [asyncio.create_task(self.listen_to_gemini())] *)
Definition create_task : M unit :=
  emit CreateTask ;; modify (set_listening true).

Definition connect_to_gemini : M unit :=
  try_except
    (key <- get api_key ;;
     match key with
     | Some (String c rest) =>
         let url := GEMINI_WS_URL ++ "?key=" ++ String c rest in
         logger_info "Connecting to Gemini Live API..." NoArg ;;
         websockets_connect url ;;
         modify (set_is_connected true) ;;
         setup_session ;;
         client_send_json (connection_status "connected") ;;
         logger_info "Successfully connected to Gemini Live API" NoArg ;;
         create_task
     | _ =>
         raise (mk_exn ValueError "GEMINI_API_KEY not found in environment variables")
     end)
    (fun e =>
       logger_error "Failed to connect to Gemini: " (ExnArg e) ;;
       client_send_json
         (error_envelope ("Failed to connect to AI service: " ++ str e))).

(** ** GeminiLiveSession.listen_to_gemini *)

(** One round of [async for message in self.gemini_ws]; [decoded] is what
    [json.loads(message)] does on the frame received. *)
Definition listen_frame (decoded : outcome json) : M unit :=
  try_except
    (data <- lift decoded ;;
     handle_gemini_message data)
    (fun e =>
       match class_of e with
       | JSONDecodeError =>
           logger_error "Failed to parse Gemini message: " (ExnArg e)
       | _ =>
           logger_error "Error handling Gemini message: " (ExnArg e)
       end).

(** The iteration itself raises [e]: the outer handlers of the listener. *)
Definition listen_raised (e : exn) : M unit :=
  match class_of e with
  | ConnectionClosed =>
      logger_info "Gemini WebSocket connection closed" NoArg ;;
      modify (set_is_connected false) ;;
      client_send_json (connection_status "disconnected")
  | _ =>
      logger_error "Error in Gemini listener: " (ExnArg e)
  end.


(** ** Sending to the upstream connection *)

(** [not self.is_connected or not self.gemini_ws] *)
Definition not_connected : M bool :=
  c <- get is_connected ;;
  g <- get gemini_ws ;;
  ret (negb c || negb g).

Definition audio_message (audio_data : json) : json :=
  JObj [("clientContent", JObj [
    ("turns", JArr [JObj [
       ("role", JStr "user");
       ("parts", JArr [JObj [
          ("inlineData", JObj [("mimeType", JStr "audio/pcm");
                               ("data", audio_data)])]])]]);
    ("turnComplete", JBool true)])].

Definition send_audio_to_gemini (audio_data : json) : M unit :=
  nc <- not_connected ;;
  if nc : bool then logger_error "Not connected to Gemini" NoArg
  else
    try_except
      (gemini_send (audio_message audio_data) ;;
       logger_info "Audio sent to Gemini" NoArg)
      (fun e => logger_error "Failed to send audio to Gemini: " (ExnArg e)).

Definition text_message (text : json) : json :=
  JObj [("clientContent", JObj [
    ("turns", JArr [JObj [
       ("role", JStr "user");
       ("parts", JArr [JObj [("text", text)]])]]);
    ("turnComplete", JBool true)])].

Definition send_text_to_gemini (text : json) : M unit :=
  nc <- not_connected ;;
  if nc : bool then logger_error "Not connected to Gemini" NoArg
  else
    try_except
      (gemini_send (text_message text) ;;
       logger_info "Text sent to Gemini: " (ValArg text))
      (fun e => logger_error "Failed to send text to Gemini: " (ExnArg e)).

Definition interrupt_message : json :=
  JObj [("clientContent", JObj [("turnComplete", JBool false)])].

Definition interrupt_gemini : M unit :=
  nc <- not_connected ;;
  if nc : bool then ret tt
  else
    try_except
      (gemini_send interrupt_message ;;
       logger_info "Interrupt sent to Gemini" NoArg)
      (fun e => logger_error "Failed to send interrupt: " (ExnArg e)).

(** ** GeminiLiveSession.close *)

Definition close : M unit :=
  g <- get gemini_ws ;;
  (if g : bool then emit UpClose else ret tt) ;;
  modify (set_is_connected false).

(** ** websocket_endpoint *)

Definition pong : json := JObj [("type", JStr "pong")].

(** The body of [async for message in websocket.iter_json()]. *)
Definition dispatch (message : json) : M unit :=
  message_type <- lift (py_get message "type") ;;
  if py_eq_str message_type "audio_data" then
    data <- lift (py_getitem message "data") ;;
    send_audio_to_gemini data
  else if py_eq_str message_type "text_data" then
    data <- lift (py_getitem message "data") ;;
    send_text_to_gemini data
  else if py_eq_str message_type "interrupt" then
    interrupt_gemini
  else if py_eq_str message_type "ping" then
    client_send_json pong
  else ret tt.

(** The [except] clauses of the endpoint. *)
Definition endpoint_except (e : exn) : M unit :=
  match class_of e with
  | WebSocketDisconnect => logger_info "Client disconnected" NoArg
  | _ => logger_error "WebSocket error: " (ExnArg e)
  end.

(** The [finally] clause, after which the endpoint returns. *)
Definition endpoint_finally : M unit :=
  close ;;
  r <- get registered ;;
  (if r : bool then modify (set_registered false) else ret tt) ;;
  modify (set_serving false).

(** A stretch of the endpoint's [try] block: an exception leaves through the
    matching [except] clause and the [finally] clause. *)
Definition in_try (body : M unit) : M unit :=
  try_except body (fun e => endpoint_except e ;; endpoint_finally).

(** From [accept] to the first wait on [iter_json]. *)
Definition endpoint_enter : M unit :=
  emit Accept ;;
  modify (set_registered true) ;;
  modify (set_serving true) ;;
  in_try connect_to_gemini.

(** ** The session as a reactive system *)

(** What the two sockets deliver, in the order the event loop resumes the two
    coroutines.  Each coroutine body runs from one wait on its socket to the
    next; upstream sends are made by the endpoint only, so their order does not
    depend on how the listener is interleaved inside such a stretch. *)
Inductive input : Type :=
| ClientEnvelope (message : json)      (* iter_json() yields message *)
| ClientEnds                           (* iter_json() is exhausted: the client left *)
| ClientRaises (e : exn)               (* iter_json() raises e *)
| GeminiFrame (decoded : outcome json) (* self.gemini_ws yields a frame *)
| GeminiEnds                           (* self.gemini_ws is exhausted *)
| GeminiRaises (e : exn).              (* iterating self.gemini_ws raises e *)

(** An exception that escapes the listener ends its task and nothing else. *)
Definition in_task (body : M unit) : M unit :=
  try_except body (fun _ => ret tt).

Definition step (i : input) : M unit :=
  match i with
  | ClientEnvelope message =>
      s <- get serving ;;
      if s : bool then in_try (dispatch message) else ret tt
  | ClientEnds =>
      s <- get serving ;;
      if s : bool then endpoint_finally else ret tt
  | ClientRaises e =>
      s <- get serving ;;
      if s : bool then endpoint_except e ;; endpoint_finally else ret tt
  | GeminiFrame decoded =>
      l <- get listening ;;
      if l : bool then listen_frame decoded else ret tt
  | GeminiEnds =>
      modify (set_listening false)
  | GeminiRaises e =>
      l <- get listening ;;
      if l : bool then
        modify (set_listening false) ;; in_task (listen_raised e)
      else ret tt
  end.

(** The world a new connection starts in. *)
Definition fresh (key : option string) (conn : option exn)
                 (ups downs : list (option exn)) : world :=
  mk_world false false false false false key conn ups downs.

Definition run (inputs : list input) : M unit := for_each step inputs.

(** A whole session: the endpoint is entered, then the inputs arrive. *)
Definition websocket_endpoint (inputs : list input) : M unit :=
  endpoint_enter ;; run inputs.

(** ** Reading a trace *)

Definition up_sends (t : list event) : list json :=
  flat_map (fun ev => match ev with UpSend p => [p] | _ => [] end) t.

Definition down_sends (t : list event) : list json :=
  flat_map (fun ev => match ev with DownSend p => [p] | _ => [] end) t.

Definition has_type (kind : string) (envelope : json) : bool :=
  match py_get envelope "type" with
  | Ok v => py_eq_str v kind
  | Raise _ => false
  end.

Definition has_key (k : string) (message : json) : bool :=
  match message with
  | JObj fields => match lookup k fields with Some _ => true | None => false end
  | _ => false
  end.

Definition count {A} (p : A -> bool) (l : list A) : nat := length (filter p l).

(** ** Shapes of upstream messages and of model-turn parts *)

(** The parts of the model turn of a [serverContent] message. *)
Definition model_turn_parts (message : json) : option (list json) :=
  match message with
  | JObj fields =>
      match lookup "serverContent" fields with
      | Some (JObj content) =>
          match lookup "modelTurn" content with
          | Some (JObj turn) =>
              match lookup "parts" turn with
              | Some (JArr parts) => Some parts
              | _ => None
              end
          | _ => None
          end
      | _ => None
      end
  | _ => None
  end.

(** The two kinds of part the translator forwards.  A part of the provider is
    one of a text part or an inline-binary part. *)
Inductive part_kind : Type :=
| TextPart (text : json)
| AudioPart (data : json).

Definition part_view (part : json) : option part_kind :=
  match part with
  | JObj fields =>
      match lookup "inlineData" fields with
      | Some (JObj inline) =>
          match lookup "mimeType" inline, lookup "data" inline with
          | Some mime, Some data =>
              if py_eq_str mime "audio/pcm" then Some (AudioPart data) else None
          | _, _ => None
          end
      | Some _ => None
      | None =>
          match lookup "text" fields with
          | Some text => Some (TextPart text)
          | None => None
          end
      end
  | _ => None
  end.

Definition part_envelope (k : part_kind) : json :=
  match k with
  | TextPart text => text_response text
  | AudioPart data => audio_response data
  end.

Definition is_text_part (k : part_kind) : bool :=
  match k with TextPart _ => true | AudioPart _ => false end.

Definition is_audio_part (k : part_kind) : bool :=
  match k with TextPart _ => false | AudioPart _ => true end.

(** An inline-binary part of another MIME type than "audio/pcm", without a
    text field. *)
Definition is_unrecognised_inline (part : json) : bool :=
  match part with
  | JObj fields =>
      match lookup "inlineData" fields, lookup "text" fields with
      | Some (JObj inline), None =>
          match lookup "mimeType" inline with
          | Some mime => negb (py_eq_str mime "audio/pcm")
          | None => false
          end
      | _, _ => false
      end
  | _ => false
  end.

(** Every pending downstream send succeeds. *)
Definition down_ok (w : world) : Prop :=
  Forall (fun r => r = None) (down_results w).

(** ** Sessions and traces used in the statements *)

Definition connects (t : list event) : nat :=
  count (fun ev => match ev with Connect _ => true | _ => false end) t.

Definition is_handshake (p : json) : bool := has_key "setup" p.

Definition is_client_content (p : json) : bool :=
  has_key "clientContent" p && negb (has_key "setup" p).

(** Why the connection attempt of a session fails, if it does. *)
Definition connect_failure (key : option string) (conn : option exn) : option exn :=
  match key with
  | Some (String _ _) => conn
  | _ => Some (mk_exn ValueError "GEMINI_API_KEY not found in environment variables")
  end.

(** The envelopes on which a connected session calls [send] on the upstream
    connection. *)
Definition forwards_upstream (message : json) : bool :=
  match message with
  | JObj fields =>
      match lookup "type" fields with
      | Some kind =>
          if py_eq_str kind "audio_data" || py_eq_str kind "text_data" then
            match lookup "data" fields with Some _ => true | None => false end
          else py_eq_str kind "interrupt"
      | None => false
      end
  | _ => false
  end.

Definition connected_world (ups downs : list (option exn)) : world :=
  mk_world true true true true true (Some "k") None ups downs.

Definition sample_turn : json :=
  JObj [("serverContent", JObj [("modelTurn", JObj [("parts", JArr [
    JObj [("text", JStr "Hello")];
    JObj [("inlineData", JObj [("mimeType", JStr "audio/pcm"); ("data", JStr "AAAA")])];
    JObj [("text", JStr "rider")]])])])].

Definition rated_pcm_part : json :=
  JObj [("inlineData", JObj [("mimeType", JStr "audio/pcm;rate=24000");
                             ("data", JStr "AAAA")])].

(** The failing input of C3: one [serverContent] message carrying both a model
    turn and the turn-completion marker. *)
Definition turn_with_completion : json :=
  JObj [("serverContent", JObj [
    ("modelTurn", JObj [("parts", JArr [JObj [("text", JStr "Done.")]])]);
    ("turnComplete", JBool true)])].


(** What [websockets.connect] raises when the endpoint cannot be reached. *)
Definition unreachable : exn :=
  mk_exn OtherException "[Errno 111] Connect call failed".

(** ** The specification's statements that the code does not meet *)

(** C1 as the specification states it: every session sends the handshake
    exactly once, before any content turn. *)
Definition handshake_exactly_once : Prop :=
  forall key conn ups downs inputs,
    let '(_, _, out) := websocket_endpoint inputs (fresh key conn ups downs) in
    count is_handshake (up_sends out) = 1 /\
    (forall before p after,
       up_sends out = (before ++ p :: after)%list ->
       is_client_content p = true ->
       existsb is_handshake before = true).


(** C7 as the specification states it: an upstream send that fails on a closed
    connection tears the session down. *)
Definition send_failure_tears_down : Prop :=
  forall message w e,
    forwards_upstream message = true ->
    serving w = true ->
    is_connected w = true ->
    gemini_ws w = true ->
    hd None (up_results w) = Some e ->
    class_of e = ConnectionClosed ->
    let '(_, w', out) := step (ClientEnvelope message) w in
    serving w' = false \/ is_connected w' = false \/ In UpClose out.

(** ** Invariants of the proofs *)

Definition down_or_log (ev : event) : Prop :=
  match ev with
  | DownSend _ | Log _ _ _ => True
  | _ => False
  end.

(** A computation that only sends downstream and logs, and touches nothing of
    the world but the pending downstream outcomes. *)
Definition listener_like {A} (m : M A) : Prop :=
  forall w,
    let '(_, w', out) := m w in
    w' = set_down_results (down_results w') w /\ Forall down_or_log out.

Definition step_ok (w : world) (res : outcome unit * world * list event) : Prop :=
  let '(r, w', out) := res in
  r = Ok tt /\
  Forall (fun p => is_client_content p = true) (up_sends out) /\
  connects out = 0 /\
  (is_connected w = false -> is_connected w' = false /\ up_sends out = []) /\
  (listening w = false ->
   listening w' = false /\ Forall (fun p => p = pong) (down_sends out)).

(** ** Vocabulary of the further properties *)

Definition closes (t : list event) : nat :=
  count (fun ev => match ev with UpClose => true | _ => false end) t.

(** What the [finally] clause of the endpoint leaves behind: the endpoint has
    returned, the session is marked disconnected and is out of the registry,
    and [close] was called on the upstream connection if there was one. *)
Definition torn_down (w w' : world) (out : list event) : Prop :=
  serving w' = false /\
  is_connected w' = false /\
  registered w' = false /\
  gemini_ws w' = gemini_ws w /\
  closes out = (if gemini_ws w then 1 else 0).

(** A [connection_status] envelope with the given status. *)
Definition is_status (status : string) (envelope : json) : bool :=
  has_type "connection_status" envelope &&
  match py_get envelope "status" with
  | Ok v => py_eq_str v status
  | Raise _ => false
  end.

(** The four kinds of envelope that carry upstream content downstream. *)
Definition relayed (envelope : json) : bool :=
  has_type "audio_response" envelope || has_type "text_response" envelope ||
  has_type "turn_complete" envelope || has_type "setup_complete" envelope.

(** The message a connected session sends upstream for a downstream envelope,
    read as a function of the envelope alone. *)
Definition upstream_payload (message : json) : option json :=
  match message with
  | JObj fields =>
      match lookup "type" fields with
      | Some kind =>
          if py_eq_str kind "audio_data" then
            option_map audio_message (lookup "data" fields)
          else if py_eq_str kind "text_data" then
            option_map text_message (lookup "data" fields)
          else if py_eq_str kind "interrupt" then Some interrupt_message
          else None
      | None => None
      end
  | _ => None
  end.

(** The client's frame stream ends or raises: the endpoint leaves its loop. *)
Definition client_leaves (i : input) : bool :=
  match i with
  | ClientEnds | ClientRaises _ => true
  | _ => false
  end.

(** [health_check]: [len(active_sessions)] counts the entry of this session,
    if it has one, and the [others] entries of the other sessions. *)
Definition health_check (others : nat) (w : world) : json :=
  JObj [("status", JStr "healthy");
        ("active_sessions",
         JInt (Z.of_nat (others + (if registered w then 1 else 0))))].

(** A session whose connection attempt failed: serving, not connected. *)
Definition unconnected_world (downs : list (option exn)) : world :=
  mk_world false false true true false (Some "k") (Some unreachable) [] downs.

(** A part whose inline data has no MIME type. *)
Definition lacks_mime_type (part : json) : bool :=
  match part with
  | JObj fields =>
      match lookup "inlineData" fields with
      | Some (JObj inline) =>
          match lookup "mimeType" inline with
          | Some _ => false
          | None => true
          end
      | _ => false
      end
  | _ => false
  end.

(** What every step of a session keeps, read between two steps: the
    connection object stays, the registry entry is there when the endpoint has
    not returned and gone when it has, [close] is called on the upstream
    connection when the endpoint leaves and at no other time, and the
    "disconnected" notice goes out with the end of the listener. *)
Definition lifecycle_ok (w : world) (res : outcome unit * world * list event) : Prop :=
  let '(_, w', out) := res in
  gemini_ws w' = gemini_ws w /\
  (registered w = serving w -> registered w' = serving w') /\
  (serving w = false -> serving w' = false /\ closes out = 0) /\
  (serving w = true ->
   closes out = (if serving w' then 0 else if gemini_ws w then 1 else 0)) /\
  (listening w = false ->
   listening w' = false /\ count (is_status "disconnected") (down_sends out) = 0) /\
  count (is_status "disconnected") (down_sends out) <= 1 /\
  (count (is_status "disconnected") (down_sends out) = 1 -> listening w' = false).

(** ** Tactics *)

Ltac unfold_monad :=
  unfold try_except, logger_info, logger_error, emit, modify, get, bind, lift,
    raise, ret.

(** Run a computation as far as the hypotheses decide its tests. *)
Ltac run_known :=
  simpl;
  repeat match goal with
         | H : ?l = _ |- context [?l] => rewrite H; simpl
         end.

Ltac break_match :=
  match goal with
  | |- context [match ?x with _ => _ end] =>
      lazymatch x with
      | context [match _ with _ => _ end] => fail
      | _ => destruct x eqn:?
      end
  end.

Ltac finish_step :=
  unfold step_ok; simpl; repeat split; intros;
  try congruence; repeat constructor.

(** * Properties *)

(** ** The monad *)

Lemma bind_Ok {A B} (m : M A) (k : A -> M B) w a w1 out1 :
  m w = (Ok a, w1, out1) ->
  bind m k w = (let '(r, w2, out2) := k a w1 in (r, w2, (out1 ++ out2)%list)).
Proof. intros H. unfold bind. rewrite H. reflexivity. Qed.

Lemma for_each_app {A} (body : A -> M unit) (l1 l2 : list A) w :
  for_each body (l1 ++ l2)%list w = (for_each body l1 ;; for_each body l2) w.
Proof.
  revert w. induction l1 as [|x l1 IH]; intros w; simpl.
  - unfold bind, ret. simpl. destruct (for_each body l2 w) as [[r w2] out2]. reflexivity.
  - unfold bind in *. destruct (body x w) as [[[[]|e] w1] out1]; [|reflexivity].
    rewrite IH.
    destruct (for_each body l1 w1) as [[[[]|e1] w2] out2]; [|reflexivity].
    destruct (for_each body l2 w2) as [[r3 w3] out3].
    rewrite app_assoc. reflexivity.
Qed.

Lemma up_sends_app t1 t2 : up_sends (t1 ++ t2) = (up_sends t1 ++ up_sends t2)%list.
Proof. apply flat_map_app. Qed.

Lemma down_sends_app t1 t2 : down_sends (t1 ++ t2) = (down_sends t1 ++ down_sends t2)%list.
Proof. apply flat_map_app. Qed.

(** ** The translator, upstream to downstream *)

Lemma handle_model_turn message parts w :
  model_turn_parts message = Some parts ->
  handle_gemini_message message w = for_each forward_part parts w.
Proof.
  unfold model_turn_parts. intros H.
  destruct message as [| | | | | |fields]; try discriminate.
  destruct (lookup "serverContent" fields) as [[| | | | | |content]|] eqn:Hc; try discriminate.
  destruct (lookup "modelTurn" content) as [[| | | | | |turn]|] eqn:Ht; try discriminate.
  destruct (lookup "parts" turn) as [[| | | | |ps|]|] eqn:Hp; try discriminate.
  injection H as <-.
  unfold handle_gemini_message, bind, lift. simpl. rewrite Hc. simpl.
  rewrite Ht. simpl. rewrite Hp. simpl.
  destruct (for_each forward_part ps w) as [[r w'] out]. reflexivity.
Qed.

Lemma client_send_json_ok payload w :
  down_ok w ->
  client_send_json payload w
  = (Ok tt, set_down_results (tl (down_results w)) w, [DownSend payload])
  /\ down_ok (set_down_results (tl (down_results w)) w).
Proof.
  unfold down_ok, client_send_json. intros H.
  destruct (down_results w) as [|r rest]; simpl.
  - split; [reflexivity | constructor].
  - inversion H as [|? ? Hr Hrest]; subst. split; [reflexivity | assumption].
Qed.

Lemma forward_part_view part k w :
  part_view part = Some k ->
  down_ok w ->
  forward_part part w
  = (Ok tt, set_down_results (tl (down_results w)) w, [DownSend (part_envelope k)]).
Proof.
  unfold part_view. intros Hv Hok.
  destruct part as [| | | | | |fields]; try discriminate.
  destruct (client_send_json_ok (part_envelope k) w Hok) as [Hsend _].
  unfold forward_part, bind, lift, ret. simpl.
  destruct (lookup "inlineData" fields) as [[| | | | | |inline]|] eqn:Hi; try discriminate.
  - destruct (lookup "mimeType" inline) as [mime|] eqn:Hm; try discriminate.
    destruct (lookup "data" inline) as [data|] eqn:Hd; try discriminate.
    destruct (py_eq_str mime "audio/pcm") eqn:He; try discriminate.
    injection Hv as <-. simpl. rewrite Hm. simpl. rewrite He. simpl.
    rewrite Hd. simpl in *. rewrite Hsend. reflexivity.
  - destruct (lookup "text" fields) as [text|] eqn:Ht; try discriminate.
    injection Hv as <-. simpl in *. rewrite Hsend. reflexivity.
Qed.

Lemma for_each_forward_views parts : forall views w,
  map part_view parts = map Some views ->
  down_ok w ->
  exists w',
    for_each forward_part parts w
    = (Ok tt, w', map DownSend (map part_envelope views)) /\ down_ok w'.
Proof.
  induction parts as [|part parts IH]; intros views w Hv Hok.
  - destruct views; [|discriminate]. exists w. split; [reflexivity | assumption].
  - destruct views as [|k views]; [discriminate|].
    simpl in Hv. injection Hv as Hk Hrest.
    destruct (client_send_json_ok (part_envelope k) w Hok) as [_ Hok'].
    destruct (IH views _ Hrest Hok') as (w' & Hrun & Hfin).
    exists w'. split; [|assumption].
    simpl. erewrite bind_Ok by (apply forward_part_view; eassumption).
    rewrite Hrun. reflexivity.
Qed.

Lemma down_sends_map_DownSend l : down_sends (map DownSend l) = l.
Proof. induction l as [|x l IH]; simpl; [reflexivity | now rewrite IH]. Qed.

Lemma count_text_response views :
  count (has_type "text_response") (map part_envelope views) = count is_text_part views.
Proof.
  unfold count. induction views as [|[t|d] views IH]; simpl; auto.
Qed.

Lemma count_audio_response views :
  count (has_type "audio_response") (map part_envelope views) = count is_audio_part views.
Proof.
  unfold count. induction views as [|[t|d] views IH]; simpl; auto.
Qed.

(** C4.  A [serverContent] message whose model turn is a list of text parts and
    recognised-audio parts, in any order, is forwarded part by part: the
    downstream sends are exactly the envelopes of the parts, in the order of
    the parts, so there are as many [text_response] envelopes as text parts and
    as many [audio_response] envelopes as audio parts. *)
Theorem model_turn_forwarded_in_order message parts views w :
  model_turn_parts message = Some parts ->
  map part_view parts = map Some views ->
  down_ok w ->
  let '(r, _, out) := handle_gemini_message message w in
  r = Ok tt /\
  out = map DownSend (map part_envelope views) /\
  down_sends out = map part_envelope views /\
  count (has_type "text_response") (down_sends out) = count is_text_part views /\
  count (has_type "audio_response") (down_sends out) = count is_audio_part views.
Proof.
  intros Hparts Hviews Hok.
  rewrite (handle_model_turn _ _ _ Hparts).
  destruct (for_each_forward_views parts views w Hviews Hok) as (w' & Hrun & _).
  rewrite Hrun. rewrite down_sends_map_DownSend.
  repeat split; auto using count_text_response, count_audio_response.
Qed.

Lemma model_turn_forwarded_in_order_witness :
  let '(r, _, out) :=
    handle_gemini_message sample_turn (fresh (Some "k") None [] [None]) in
  r = Ok tt /\
  out = map DownSend (map part_envelope
          [TextPart (JStr "Hello"); AudioPart (JStr "AAAA"); TextPart (JStr "rider")]) /\
  down_sends out = map part_envelope
          [TextPart (JStr "Hello"); AudioPart (JStr "AAAA"); TextPart (JStr "rider")] /\
  count (has_type "text_response") (down_sends out) = 2 /\
  count (has_type "audio_response") (down_sends out) = 1.
Proof.
  apply (model_turn_forwarded_in_order sample_turn
           [JObj [("text", JStr "Hello")];
            JObj [("inlineData", JObj [("mimeType", JStr "audio/pcm"); ("data", JStr "AAAA")])];
            JObj [("text", JStr "rider")]]
           [TextPart (JStr "Hello"); AudioPart (JStr "AAAA"); TextPart (JStr "rider")]).
  - reflexivity.
  - reflexivity.
  - repeat constructor.
Defined.

Lemma forward_unrecognised_inline part w :
  is_unrecognised_inline part = true -> forward_part part w = (Ok tt, w, []).
Proof.
  unfold is_unrecognised_inline. intros H.
  destruct part as [| | | | | |fields]; try discriminate.
  destruct (lookup "inlineData" fields) as [[| | | | | |inline]|] eqn:Hi; try discriminate.
  destruct (lookup "text" fields) eqn:Ht; try discriminate.
  destruct (lookup "mimeType" inline) as [mime|] eqn:Hm; try discriminate.
  apply negb_true_iff in H.
  unfold forward_part, bind, lift, ret. simpl. rewrite Hi. simpl.
  rewrite Hm. simpl. rewrite H. simpl. rewrite Ht. reflexivity.
Qed.

(** C10.  Inside a model turn, an inline-binary part whose MIME type is not
    the string "audio/pcm" and which has no text field is dropped: forwarding
    it sends nothing, raises nothing and changes nothing, and the message is
    relayed as the parts before it followed by the parts after it. *)
Theorem unrecognised_inline_part_dropped part :
  is_unrecognised_inline part = true ->
  (forall w, forward_part part w = (Ok tt, w, [])) /\
  (forall message before after w,
     model_turn_parts message = Some (before ++ part :: after)%list ->
     handle_gemini_message message w
     = (for_each forward_part before ;; for_each forward_part after) w).
Proof.
  intros H. split.
  - intros w. now apply forward_unrecognised_inline.
  - intros message before after w Hparts.
    rewrite (handle_model_turn _ _ _ Hparts), for_each_app.
    unfold bind. destruct (for_each forward_part before w) as [[[[]|e] w1] out1];
      [|reflexivity].
    simpl. unfold bind. rewrite (forward_unrecognised_inline part w1 H).
    destruct (for_each forward_part after w1) as [[r2 w2] out2]. reflexivity.
Qed.

Lemma unrecognised_inline_part_dropped_witness :
  (forall w, forward_part rated_pcm_part w = (Ok tt, w, [])) /\
  (forall message before after w,
     model_turn_parts message = Some (before ++ rated_pcm_part :: after)%list ->
     handle_gemini_message message w
     = (for_each forward_part before ;; for_each forward_part after) w).
Proof.
  apply (unrecognised_inline_part_dropped rated_pcm_part). reflexivity.
Defined.

(** C3.  On a [serverContent] message that carries the turn-completion marker
    together with a model turn, the relay forwards the parts and sends no
    [turn_complete] envelope: the marker is only looked at when the message has
    no model turn. *)
Theorem turn_complete_lost_beside_model_turn :
  forall w,
    let '(_, _, out) := handle_gemini_message turn_with_completion w in
    py_contains "turnComplete"
      (JObj [("modelTurn", JObj [("parts", JArr [JObj [("text", JStr "Done.")]])]);
             ("turnComplete", JBool true)]) = Ok true /\
    down_sends out = [text_response (JStr "Done.")] /\
    count (has_type "turn_complete") (down_sends out) = 0.
Proof.
  intros w. unfold turn_with_completion, handle_gemini_message, bind, lift, ret.
  simpl. unfold forward_part, bind, lift, ret, client_send_json. simpl.
  destruct (hd None (down_results w)); simpl; repeat split; reflexivity.
Qed.

Lemma forward_part_no_turn_complete part w :
  let '(_, _, out) := forward_part part w in
  count (has_type "turn_complete") (down_sends out) = 0.
Proof.
  unfold forward_part, client_send_json. unfold_monad.
  repeat (break_match; simpl in *; try congruence).
  all: reflexivity.
Qed.

Lemma for_each_no_turn_complete parts : forall w,
  let '(_, _, out) := for_each forward_part parts w in
  count (has_type "turn_complete") (down_sends out) = 0.
Proof.
  induction parts as [|part parts IH]; intros w; [reflexivity|].
  simpl. unfold bind.
  pose proof (forward_part_no_turn_complete part w) as Hp.
  destruct (forward_part part w) as [[[[]|e] w1] out1]; [|exact Hp].
  specialize (IH w1). destruct (for_each forward_part parts w1) as [[r2 w2] out2].
  unfold count in *. rewrite down_sends_app, filter_app, length_app. lia.
Qed.

(** Whatever else it holds, a [serverContent] with a model turn never yields a
    [turn_complete] envelope. *)
Lemma completion_shadowed_by_model_turn fields content turn w :
  lookup "serverContent" fields = Some (JObj content) ->
  lookup "modelTurn" content = Some turn ->
  let '(_, _, out) := handle_gemini_message (JObj fields) w in
  count (has_type "turn_complete") (down_sends out) = 0.
Proof.
  intros Hc Ht. unfold handle_gemini_message. unfold_monad. run_known.
  destruct (py_getitem turn "parts") as [parts|e]; [|reflexivity].
  destruct (py_iter parts) as [items|e]; [|reflexivity].
  pose proof (for_each_no_turn_complete items w) as H.
  destruct (for_each forward_part items w) as [[r w'] out]. exact H.
Qed.

(** The sibling path: without a model turn the marker is forwarded. *)
Lemma turn_complete_without_model_turn fields content w :
  lookup "serverContent" fields = Some (JObj content) ->
  lookup "modelTurn" content = None ->
  lookup "turnComplete" content <> None ->
  handle_gemini_message (JObj fields) w = client_send_json turn_complete w.
Proof.
  intros Hc Ht Hm.
  unfold handle_gemini_message, bind, lift, ret. simpl. rewrite Hc. simpl.
  rewrite Ht. simpl.
  destruct (lookup "turnComplete" content); [|congruence].
  destruct (client_send_json turn_complete w) as [[r w'] out]. reflexivity.
Qed.

(** ** The translator, downstream to upstream *)

(** C5.  On a connected session, an [audio_data] envelope with payload [data]
    makes one upstream send: a [clientContent] message with one turn of role
    "user" whose only part is an inline-binary part of MIME type "audio/pcm"
    with that payload, and [turnComplete] true. *)
Theorem audio_data_forwarded fields data w :
  lookup "type" fields = Some (JStr "audio_data") ->
  lookup "data" fields = Some data ->
  serving w = true ->
  is_connected w = true ->
  gemini_ws w = true ->
  let '(r, _, out) := step (ClientEnvelope (JObj fields)) w in
  r = Ok tt /\
  up_sends out =
    [JObj [("clientContent", JObj [
       ("turns", JArr [JObj [
          ("role", JStr "user");
          ("parts", JArr [JObj [
             ("inlineData", JObj [("mimeType", JStr "audio/pcm");
                                  ("data", data)])]])]]);
       ("turnComplete", JBool true)])]] /\
  down_sends out = [].
Proof.
  intros Hty Hdata Hs Hc Hg.
  unfold step, in_try, dispatch, send_audio_to_gemini, not_connected, gemini_send.
  unfold_monad. run_known.
  destruct (hd None (up_results w)); simpl; repeat split; reflexivity.
Qed.

Lemma audio_data_forwarded_witness :
  let '(r, _, out) :=
    step (ClientEnvelope (JObj [("type", JStr "audio_data"); ("data", JStr "QUJD")]))
         (connected_world [] []) in
  r = Ok tt /\
  up_sends out =
    [JObj [("clientContent", JObj [
       ("turns", JArr [JObj [
          ("role", JStr "user");
          ("parts", JArr [JObj [
             ("inlineData", JObj [("mimeType", JStr "audio/pcm");
                                  ("data", JStr "QUJD")])]])]]);
       ("turnComplete", JBool true)])]] /\
  down_sends out = [].
Proof.
  apply (audio_data_forwarded
           [("type", JStr "audio_data"); ("data", JStr "QUJD")] (JStr "QUJD")
           (connected_world [] [])); reflexivity.
Defined.

(** C6.  On a connected session, an [interrupt] envelope makes one upstream
    send: a [clientContent] message that has no turns, hence no parts, and
    [turnComplete] false. *)
Theorem interrupt_forwarded fields w :
  lookup "type" fields = Some (JStr "interrupt") ->
  serving w = true ->
  is_connected w = true ->
  gemini_ws w = true ->
  let '(r, _, out) := step (ClientEnvelope (JObj fields)) w in
  r = Ok tt /\
  up_sends out = [JObj [("clientContent", JObj [("turnComplete", JBool false)])]] /\
  down_sends out = [].
Proof.
  intros Hty Hs Hc Hg.
  unfold step, in_try, dispatch, interrupt_gemini, not_connected, gemini_send.
  unfold_monad. run_known.
  destruct (hd None (up_results w)); simpl; repeat split; reflexivity.
Qed.

Lemma interrupt_forwarded_witness :
  let '(r, _, out) :=
    step (ClientEnvelope (JObj [("type", JStr "interrupt")])) (connected_world [] []) in
  r = Ok tt /\
  up_sends out = [JObj [("clientContent", JObj [("turnComplete", JBool false)])]] /\
  down_sends out = [].
Proof.
  apply (interrupt_forwarded [("type", JStr "interrupt")] (connected_world [] []));
    reflexivity.
Defined.

(** C9.  A downstream envelope whose kind is none of [audio_data],
    [text_data], [interrupt] and [ping] (also one without a kind) has no
    effect: no call is made on either socket or on the logger, and the session
    and its environment are left as they were. *)
Theorem unknown_kind_ignored message kind w :
  py_get message "type" = Ok kind ->
  py_eq_str kind "audio_data" = false ->
  py_eq_str kind "text_data" = false ->
  py_eq_str kind "interrupt" = false ->
  py_eq_str kind "ping" = false ->
  step (ClientEnvelope message) w = (Ok tt, w, []).
Proof.
  intros Hk Ha Ht Hi Hp.
  unfold step, in_try, dispatch. unfold_monad.
  destruct (serving w); run_known; reflexivity.
Qed.

Lemma unknown_kind_ignored_witness :
  step (ClientEnvelope (JObj [("type", JStr "video_data"); ("data", JStr "QUJD")]))
       (connected_world [] [])
  = (Ok tt, connected_world [] [], []).
Proof.
  apply (unknown_kind_ignored _ (JStr "video_data")); reflexivity.
Defined.

(** ** Failed upstream sends *)

(** C7, counterexample.  On a connected session whose upstream connection has
    gone, an [audio_data] envelope makes [send] raise [ConnectionClosed]; after
    the step the endpoint is still serving, the session is still marked
    connected and [close] has not been called. *)
Lemma send_failure_does_not_tear_down : ~ send_failure_tears_down.
Proof.
  intros H.
  specialize (H (JObj [("type", JStr "audio_data"); ("data", JStr "QUJD")])
                (connected_world [Some (mk_exn ConnectionClosed "no close frame received or sent")] [])
                (mk_exn ConnectionClosed "no close frame received or sent")
                eq_refl eq_refl eq_refl eq_refl eq_refl eq_refl).
  simpl in H. destruct H as [H|[H|H]]; try discriminate.
  destruct H as [H|[H|[]]]; discriminate.
Qed.

Lemma failed_send_caught message w e :
  forwards_upstream message = true ->
  serving w = true ->
  is_connected w = true ->
  gemini_ws w = true ->
  hd None (up_results w) = Some e ->
  let '(r, w', out) := step (ClientEnvelope message) w in
  r = Ok tt /\
  w' = set_up_results (tl (up_results w)) w /\
  serving w' = true /\ is_connected w' = true /\ gemini_ws w' = true /\
  (exists payload text, out = [UpSend payload; Log ERROR text (ExnArg e)]).
Proof.
  unfold forwards_upstream. intros Hf Hs Hc Hg He.
  destruct message as [| | | | | |fields]; try discriminate.
  destruct (lookup "type" fields) as [kind|] eqn:Hty; try discriminate.
  unfold step, in_try, dispatch, send_audio_to_gemini, send_text_to_gemini,
    interrupt_gemini, not_connected, gemini_send.
  unfold_monad.
  destruct (py_eq_str kind "audio_data") eqn:Ha; simpl in Hf.
  - destruct (lookup "data" fields) as [data|] eqn:Hd; try discriminate.
    run_known. repeat split; eauto.
  - destruct (py_eq_str kind "text_data") eqn:Ht; simpl in Hf.
    + destruct (lookup "data" fields) as [data|] eqn:Hd; try discriminate.
      run_known. repeat split; eauto.
    + run_known. repeat split; eauto.
Qed.

(** C7, amended.  When [send] on the upstream connection raises, the
    exception is caught where the send is made: one error line is logged, the
    session object is untouched (still marked connected, the endpoint still
    serving, the upstream connection not closed), and the endpoint goes on
    with the next envelope: what arrives afterwards is handled from that
    unchanged session. *)
Theorem failed_upstream_send_only_logged message w e :
  forwards_upstream message = true ->
  serving w = true ->
  is_connected w = true ->
  gemini_ws w = true ->
  hd None (up_results w) = Some e ->
  let '(r, w', out) := step (ClientEnvelope message) w in
  r = Ok tt /\
  w' = set_up_results (tl (up_results w)) w /\
  serving w' = true /\ is_connected w' = true /\ gemini_ws w' = true /\
  (exists payload text, out = [UpSend payload; Log ERROR text (ExnArg e)]) /\
  (forall rest,
     run (ClientEnvelope message :: rest) w
     = (let '(r2, w2, out2) := run rest w' in (r2, w2, (out ++ out2)%list))).
Proof.
  intros Hf Hs Hc Hg He.
  pose proof (failed_send_caught message w e Hf Hs Hc Hg He) as H.
  destruct (step (ClientEnvelope message) w) as [[r w'] out] eqn:Hstep.
  destruct H as (-> & Hw & Hs' & Hc' & Hg' & Hout).
  repeat split; try assumption.
  intros rest. unfold run. simpl for_each.
  rewrite (bind_Ok _ _ _ _ _ _ Hstep). reflexivity.
Qed.

Lemma failed_upstream_send_only_logged_witness :
  let '(r, w', out) :=
    step (ClientEnvelope (JObj [("type", JStr "text_data"); ("data", JStr "range?")]))
         (connected_world [Some (mk_exn ConnectionClosed "closed")] []) in
  r = Ok tt /\
  w' = set_up_results
         (tl (up_results (connected_world [Some (mk_exn ConnectionClosed "closed")] [])))
         (connected_world [Some (mk_exn ConnectionClosed "closed")] []) /\
  serving w' = true /\ is_connected w' = true /\ gemini_ws w' = true /\
  (exists payload text,
     out = [UpSend payload; Log ERROR text (ExnArg (mk_exn ConnectionClosed "closed"))]) /\
  (forall rest,
     run (ClientEnvelope (JObj [("type", JStr "text_data"); ("data", JStr "range?")])
          :: rest)
         (connected_world [Some (mk_exn ConnectionClosed "closed")] [])
     = (let '(r2, w2, out2) := run rest w' in (r2, w2, (out ++ out2)%list))).
Proof.
  apply (failed_upstream_send_only_logged
           (JObj [("type", JStr "text_data"); ("data", JStr "range?")])
           (connected_world [Some (mk_exn ConnectionClosed "closed")] [])
           (mk_exn ConnectionClosed "closed")); reflexivity.
Defined.

(** ** Malformed upstream frames *)



(** ** What the listener can do *)

Lemma set_down_results_id w : w = set_down_results (down_results w) w.
Proof. destruct w; reflexivity. Qed.

Lemma listener_like_ret {A} (a : A) : listener_like (ret a).
Proof. intros w. simpl. split; [apply set_down_results_id | constructor]. Qed.

Lemma listener_like_lift {A} (r : outcome A) : listener_like (lift r).
Proof. intros w. simpl. split; [apply set_down_results_id | constructor]. Qed.

Lemma listener_like_log lvl text arg : listener_like (emit (Log lvl text arg)).
Proof.
  intros w. simpl. split; [apply set_down_results_id | repeat constructor].
Qed.

Lemma listener_like_send payload : listener_like (client_send_json payload).
Proof.
  intros w. unfold client_send_json.
  destruct (hd None (down_results w)); simpl;
    (split; [destruct w; reflexivity | repeat constructor]).
Qed.

Lemma listener_like_bind {A B} (m : M A) (k : A -> M B) :
  listener_like m -> (forall a, listener_like (k a)) -> listener_like (bind m k).
Proof.
  intros Hm Hk w. unfold bind. specialize (Hm w).
  destruct (m w) as [[[a|e] w1] out1]; [|exact Hm].
  destruct Hm as [Hw1 Hout1]. specialize (Hk a w1).
  destruct (k a w1) as [[r w2] out2]. destruct Hk as [Hw2 Hout2]. split.
  - destruct w, w1, w2; unfold set_down_results in *; simpl in *; congruence.
  - apply Forall_app. now split.
Qed.

Lemma listener_like_try {A} (body : M A) (handler : exn -> M A) :
  listener_like body -> (forall e, listener_like (handler e)) ->
  listener_like (try_except body handler).
Proof.
  intros Hm Hk w. unfold try_except. specialize (Hm w).
  destruct (body w) as [[[a|e] w1] out1]; [exact Hm|].
  destruct Hm as [Hw1 Hout1]. specialize (Hk e w1).
  destruct (handler e w1) as [[r w2] out2]. destruct Hk as [Hw2 Hout2]. split.
  - destruct w, w1, w2; unfold set_down_results in *; simpl in *; congruence.
  - apply Forall_app. now split.
Qed.

Lemma listener_like_for_each {A} (body : A -> M unit) (l : list A) :
  (forall x, listener_like (body x)) -> listener_like (for_each body l).
Proof.
  intros Hbody. induction l as [|x l IH]; simpl.
  - apply listener_like_ret.
  - apply listener_like_bind; auto.
Qed.

Ltac listener_like :=
  repeat first
    [ apply listener_like_ret
    | apply listener_like_lift
    | apply listener_like_send
    | apply listener_like_log
    | apply listener_like_bind; [|intros ?]
    | apply listener_like_try; [|intros ?]
    | match goal with
      | |- listener_like (if ?b then _ else _) => destruct b
      | |- listener_like (match ?x with _ => _ end) => destruct x
      end ].

Lemma listener_like_forward_part part : listener_like (forward_part part).
Proof. unfold forward_part. listener_like. Qed.

Lemma listener_like_handle message : listener_like (handle_gemini_message message).
Proof.
  unfold handle_gemini_message, logger_info. listener_like.
  apply listener_like_for_each, listener_like_forward_part.
Qed.

Lemma listener_like_listen_frame decoded : listener_like (listen_frame decoded).
Proof.
  unfold listen_frame, logger_error. apply listener_like_try.
  - apply listener_like_bind; [apply listener_like_lift|].
    intros data. apply listener_like_handle.
  - intros e. destruct (class_of e); apply listener_like_log.
Qed.

(** The loop body of the listener never lets an exception out. *)
Lemma listen_frame_returns decoded w :
  exists w' out, listen_frame decoded w = (Ok tt, w', out).
Proof.
  unfold listen_frame, try_except.
  destruct ((data <- lift decoded;; handle_gemini_message data) w)
    as [[[[]|e] w1] out1]; [eauto|].
  destruct (class_of e); simpl; eauto.
Qed.

Lemma down_or_log_up_sends out : Forall down_or_log out -> up_sends out = [].
Proof.
  induction 1 as [|ev out Hev _ IH]; [reflexivity|].
  destruct ev; simpl in *; try contradiction; assumption.
Qed.

Lemma down_or_log_connects out : Forall down_or_log out -> connects out = 0.
Proof.
  unfold connects, count.
  induction 1 as [|ev out Hev _ IH]; [reflexivity|].
  destruct ev; simpl in *; try contradiction; assumption.
Qed.

Lemma connects_app t1 t2 : connects (t1 ++ t2) = connects t1 + connects t2.
Proof. unfold connects, count. now rewrite filter_app, length_app. Qed.

(** ** What a step of the session can send upstream *)

Lemma client_step_summary message w : step_ok w (step (ClientEnvelope message) w).
Proof.
  unfold step, in_try, dispatch, send_audio_to_gemini, send_text_to_gemini,
    interrupt_gemini, endpoint_except, endpoint_finally, close, not_connected,
    gemini_send, client_send_json.
  unfold_monad. unfold step_ok.
  repeat (break_match; simpl in *; try congruence).
  all: finish_step.
  all: match goal with
       | H : is_connected ?w = false, H1 : negb (is_connected ?w) || _ = false |- _ =>
           rewrite H in H1; discriminate
       end.
Qed.

Lemma client_ends_summary w : step_ok w (step ClientEnds w).
Proof.
  unfold step, endpoint_finally, close. unfold_monad. unfold step_ok.
  repeat (break_match; simpl in *; try congruence).
  all: finish_step.
Qed.

Lemma client_raises_summary e w : step_ok w (step (ClientRaises e) w).
Proof.
  unfold step, endpoint_except, endpoint_finally, close. unfold_monad. unfold step_ok.
  repeat (break_match; simpl in *; try congruence).
  all: finish_step.
Qed.

Lemma gemini_frame_summary decoded w : step_ok w (step (GeminiFrame decoded) w).
Proof.
  unfold step. unfold_monad. simpl.
  destruct (listening w) eqn:Hl; [|finish_step].
  destruct (listen_frame_returns decoded w) as (w' & out & Hrun).
  pose proof (listener_like_listen_frame decoded w) as Hlike.
  rewrite Hrun in Hlike |- *. destruct Hlike as [Hw' Hout].
  unfold step_ok. simpl.
  rewrite (down_or_log_up_sends _ Hout), (down_or_log_connects _ Hout).
  repeat split; try congruence; try constructor.
  rewrite Hw'. destruct w; simpl in *; assumption.
Qed.

Lemma gemini_ends_summary w : step_ok w (step GeminiEnds w).
Proof. unfold step. unfold_monad. finish_step. Qed.

Lemma gemini_raises_summary e w : step_ok w (step (GeminiRaises e) w).
Proof.
  unfold step, in_task, listen_raised, client_send_json. unfold_monad. unfold step_ok.
  repeat (break_match; simpl in *; try congruence).
  all: finish_step.
Qed.

Lemma step_summary i w : step_ok w (step i w).
Proof.
  destruct i; auto using client_step_summary, client_ends_summary,
    client_raises_summary, gemini_frame_summary, gemini_ends_summary,
    gemini_raises_summary.
Qed.

Lemma run_summary inputs : forall w, step_ok w (run inputs w).
Proof.
  induction inputs as [|i inputs IH]; intros w.
  - unfold run. simpl. finish_step.
  - unfold run in *. simpl. unfold bind.
    pose proof (step_summary i w) as Hi.
    destruct (step i w) as [[r1 w1] out1].
    destruct Hi as (-> & Hup1 & Hc1 & Hconn1 & Hlis1).
    specialize (IH w1). destruct (for_each step inputs w1) as [[r2 w2] out2].
    destruct IH as (-> & Hup2 & Hc2 & Hconn2 & Hlis2).
    unfold step_ok. rewrite up_sends_app, down_sends_app, connects_app.
    repeat split.
    + apply Forall_app. now split.
    + now rewrite Hc1, Hc2.
    + apply Hconn2, Hconn1. assumption.
    + destruct (Hconn1 H) as [H1 ->]. destruct (Hconn2 H1) as [_ ->]. reflexivity.
    + apply Hlis2, Hlis1. assumption.
    + destruct (Hlis1 H) as [H1 Hd1]. destruct (Hlis2 H1) as [_ Hd2].
      apply Forall_app. now split.
Qed.

(** ** Entering the endpoint *)

Lemma enter_with_failure key conn ups downs e :
  connect_failure key conn = Some e ->
  let '(r, w1, out1) := endpoint_enter (fresh key conn ups downs) in
  r = Ok tt /\
  is_connected w1 = false /\ listening w1 = false /\ gemini_ws w1 = false /\
  up_sends out1 = [] /\
  down_sends out1 = [error_envelope ("Failed to connect to AI service: " ++ str e)] /\
  connects out1 <= 1 /\
  (hd None downs = None -> serving w1 = true).
Proof.
  unfold connect_failure. intros H.
  unfold endpoint_enter, in_try, connect_to_gemini, websockets_connect,
    endpoint_except, endpoint_finally, close, client_send_json, fresh.
  unfold_monad.
  destruct key as [[|c k]|]; simpl in *.
  - injection H as <-. destruct (hd None downs) as [e'|] eqn:Hd; simpl.
    + destruct (class_of e'); simpl; repeat split; auto; discriminate.
    + repeat split; auto.
  - subst conn. simpl. destruct (hd None downs) as [e'|] eqn:Hd; simpl.
    + destruct (class_of e'); simpl; repeat split; auto; discriminate.
    + repeat split; auto.
  - injection H as <-. destruct (hd None downs) as [e'|] eqn:Hd; simpl.
    + destruct (class_of e'); simpl; repeat split; auto; discriminate.
    + repeat split; auto.
Qed.

Lemma enter_with_connection key conn ups downs :
  connect_failure key conn = None ->
  let '(r, _, out1) := endpoint_enter (fresh key conn ups downs) in
  r = Ok tt /\ up_sends out1 = [setup_message] /\ connects out1 = 1.
Proof.
  unfold connect_failure. intros H.
  destruct key as [[|c k]|]; try discriminate. subst conn.
  unfold endpoint_enter, in_try, connect_to_gemini, websockets_connect,
    setup_session, create_task, gemini_send,
    endpoint_except, endpoint_finally, close, client_send_json, fresh.
  unfold_monad. simpl.
  repeat (break_match; simpl in *; try congruence).
  all: repeat split; reflexivity.
Qed.

Lemma content_is_not_handshake turns :
  Forall (fun p => is_client_content p = true) turns ->
  count is_handshake turns = 0.
Proof.
  unfold count. induction 1 as [|p turns Hp _ IH]; [reflexivity|].
  simpl. unfold is_client_content in Hp. apply andb_true_iff in Hp.
  destruct Hp as [_ Hp]. apply negb_true_iff in Hp.
  unfold is_handshake. rewrite Hp. exact IH.
Qed.


(** ** The handshake *)

(** C1, counterexample.  The credential is set but [websockets.connect]
    raises; the client then sends one [audio_data] envelope.  No handshake is
    ever sent: the count is 0, not 1. *)
Lemma handshake_not_sent_without_connection : ~ handshake_exactly_once.
Proof.
  intros H.
  specialize (H (Some "k") (Some unreachable) [] []
                [ClientEnvelope (JObj [("type", JStr "audio_data"); ("data", JStr "QUJD")])]).
  simpl in H. destruct H as [H _]. discriminate.
Qed.

(** C1, amended.  In a session whose upstream connection opens, the first
    call of [send] on that connection carries the setup message and every
    later one carries a [clientContent] message, so the handshake is sent once
    and before every content turn.  In a session whose connection attempt
    fails (no credential, or [websockets.connect] raises) nothing at all is
    sent upstream: neither handshake nor content. *)
Theorem handshake_first_when_connected key conn ups downs inputs :
  let '(_, _, out) := websocket_endpoint inputs (fresh key conn ups downs) in
  match connect_failure key conn with
  | None =>
      (exists turns,
         up_sends out = setup_message :: turns /\
         Forall (fun p => is_client_content p = true) turns) /\
      count is_handshake (up_sends out) = 1
  | Some _ => up_sends out = []
  end /\
  (forall before p after,
     up_sends out = (before ++ p :: after)%list ->
     is_client_content p = true ->
     hd_error before = Some setup_message).
Proof.
  unfold websocket_endpoint, bind.
  destruct (connect_failure key conn) as [e|] eqn:Hf.
  - pose proof (enter_with_failure key conn ups downs e Hf) as He.
    destruct (endpoint_enter (fresh key conn ups downs)) as [[r1 w1] out1].
    destruct He as (-> & Hc & _ & _ & Hup & _).
    pose proof (run_summary inputs w1) as Hr.
    destruct (run inputs w1) as [[r2 w2] out2].
    destruct Hr as (_ & _ & _ & Hconn & _). destruct (Hconn Hc) as [_ Hup2].
    rewrite up_sends_app, Hup, Hup2. split; [reflexivity|].
    intros [|x before] p after Hsplit; discriminate.
  - pose proof (enter_with_connection key conn ups downs Hf) as He.
    destruct (endpoint_enter (fresh key conn ups downs)) as [[r1 w1] out1].
    destruct He as (-> & Hup & _).
    pose proof (run_summary inputs w1) as Hr.
    destruct (run inputs w1) as [[r2 w2] out2].
    destruct Hr as (_ & Hturns & _).
    rewrite up_sends_app, Hup. simpl. repeat split.
    + eauto.
    + unfold count. simpl. f_equal. now apply content_is_not_handshake.
    + intros [|x before] p after Hsplit Hp; simpl in Hsplit.
      * injection Hsplit as <- _. discriminate.
      * injection Hsplit as <- _. reflexivity.
Qed.

(** ** Failure of the connection attempt *)




(** * Further properties of the code *)

(** ** The endpoint loop *)

(** X1.  A [ping] envelope is answered with one [pong], whatever the state of
    the upstream connection, and nothing is sent upstream for it; when the
    send succeeds that is all the step does. *)
Theorem ping_answered_directly fields w :
  lookup "type" fields = Some (JStr "ping") ->
  serving w = true ->
  let '(r, w', out) := step (ClientEnvelope (JObj fields)) w in
  r = Ok tt /\
  down_sends out = [pong] /\
  up_sends out = [] /\
  (hd None (down_results w) = None ->
   out = [DownSend pong] /\ w' = set_down_results (tl (down_results w)) w).
Proof.
  intros Hty Hs.
  unfold step, in_try, dispatch, client_send_json, endpoint_except,
    endpoint_finally, close.
  unfold_monad. run_known.
  destruct (hd None (down_results w)) as [e|]; simpl.
  - destruct (class_of e); simpl; destruct (gemini_ws w); simpl;
      destruct (registered w); simpl; repeat split; intros; discriminate.
  - repeat split; reflexivity.
Qed.

Lemma ping_answered_directly_witness :
  let '(r, w', out) :=
    step (ClientEnvelope (JObj [("type", JStr "ping")]))
         (unconnected_world []) in
  r = Ok tt /\
  down_sends out = [pong] /\
  up_sends out = [] /\
  (hd None (down_results (unconnected_world [])) = None ->
   out = [DownSend pong] /\
   w' = set_down_results (tl (down_results (unconnected_world [])))
                         (unconnected_world [])).
Proof.
  apply (ping_answered_directly [("type", JStr "ping")] (unconnected_world []));
    reflexivity.
Defined.

(** X2.  On a connected session, a [text_data] envelope with payload [data]
    makes one upstream send: a [clientContent] message with one turn of role
    "user" whose only part is the text part [data], and [turnComplete] true. *)
Theorem text_data_forwarded fields data w :
  lookup "type" fields = Some (JStr "text_data") ->
  lookup "data" fields = Some data ->
  serving w = true ->
  is_connected w = true ->
  gemini_ws w = true ->
  let '(r, _, out) := step (ClientEnvelope (JObj fields)) w in
  r = Ok tt /\
  up_sends out =
    [JObj [("clientContent", JObj [
       ("turns", JArr [JObj [
          ("role", JStr "user");
          ("parts", JArr [JObj [("text", data)]])]]);
       ("turnComplete", JBool true)])]] /\
  down_sends out = [].
Proof.
  intros Hty Hdata Hs Hc Hg.
  unfold step, in_try, dispatch, send_text_to_gemini, not_connected, gemini_send.
  unfold_monad. run_known.
  destruct (hd None (up_results w)); simpl; repeat split; reflexivity.
Qed.

Lemma text_data_forwarded_witness :
  let '(r, _, out) :=
    step (ClientEnvelope (JObj [("type", JStr "text_data"); ("data", JStr "range?")]))
         (connected_world [] []) in
  r = Ok tt /\
  up_sends out =
    [JObj [("clientContent", JObj [
       ("turns", JArr [JObj [
          ("role", JStr "user");
          ("parts", JArr [JObj [("text", JStr "range?")]])]]);
       ("turnComplete", JBool true)])]] /\
  down_sends out = [].
Proof.
  apply (text_data_forwarded
           [("type", JStr "text_data"); ("data", JStr "range?")] (JStr "range?")
           (connected_world [] [])); reflexivity.
Defined.

(** X3.  While the session is not connected (the flag is down, or there is no
    upstream connection), an [audio_data], [text_data] or [interrupt] envelope
    is dropped: nothing is sent upstream, the client is told nothing, the
    session is unchanged and keeps serving; at most one error line is
    logged. *)
Theorem unconnected_content_dropped message w :
  forwards_upstream message = true ->
  serving w = true ->
  is_connected w && gemini_ws w = false ->
  let '(r, w', out) := step (ClientEnvelope message) w in
  r = Ok tt /\
  w' = w /\
  up_sends out = [] /\
  down_sends out = [] /\
  (out = [] \/ out = [Log ERROR "Not connected to Gemini" NoArg]).
Proof.
  unfold forwards_upstream. intros Hf Hs Hnc.
  destruct message as [| | | | | |fields]; try discriminate.
  destruct (lookup "type" fields) as [kind|] eqn:Hty; try discriminate.
  assert (Hn : negb (is_connected w) || negb (gemini_ws w) = true).
  { destruct (is_connected w), (gemini_ws w); simpl in *; congruence. }
  unfold step, in_try, dispatch, send_audio_to_gemini, send_text_to_gemini,
    interrupt_gemini, not_connected.
  unfold_monad.
  destruct (py_eq_str kind "audio_data") eqn:Ha; simpl in Hf.
  - destruct (lookup "data" fields) as [data|] eqn:Hd; try discriminate.
    run_known. repeat split; auto.
  - destruct (py_eq_str kind "text_data") eqn:Ht; simpl in Hf.
    + destruct (lookup "data" fields) as [data|] eqn:Hd; try discriminate.
      run_known. repeat split; auto.
    + run_known. repeat split; auto.
Qed.

Lemma unconnected_content_dropped_witness :
  let '(r, w', out) :=
    step (ClientEnvelope (JObj [("type", JStr "audio_data"); ("data", JStr "QUJD")]))
         (unconnected_world []) in
  r = Ok tt /\
  w' = unconnected_world [] /\
  up_sends out = [] /\
  down_sends out = [] /\
  (out = [] \/ out = [Log ERROR "Not connected to Gemini" NoArg]).
Proof.
  apply (unconnected_content_dropped
           (JObj [("type", JStr "audio_data"); ("data", JStr "QUJD")])
           (unconnected_world [])); reflexivity.
Defined.

Lemma leave_through_except e w :
  let '(r, w', out) := (endpoint_except e ;; endpoint_finally) w in
  r = Ok tt /\ torn_down w w' out /\ up_sends out = [] /\ down_sends out = [].
Proof.
  unfold endpoint_except, endpoint_finally, close, torn_down. unfold_monad.
  destruct w as [g c r s l k cr u d].
  destruct (class_of e), g, r; simpl; repeat split; reflexivity.
Qed.

Lemma step_serving message w :
  serving w = true -> step (ClientEnvelope message) w = in_try (dispatch message) w.
Proof.
  intros Hs. unfold step. unfold_monad. rewrite Hs.
  destruct (in_try (dispatch message) w) as [[r w'] out]. reflexivity.
Qed.

Lemma in_try_raised body e w w1 out1 :
  body w = (Raise e, w1, out1) ->
  exists w' rest,
    in_try body w = (Ok tt, w', (out1 ++ rest)%list) /\
    torn_down w1 w' rest /\ up_sends rest = [] /\ down_sends rest = [].
Proof.
  intros Hb. unfold in_try, try_except. rewrite Hb.
  pose proof (leave_through_except e w1) as Hl.
  destruct ((endpoint_except e;; endpoint_finally) w1) as [[r w'] rest].
  destruct Hl as (-> & Hl). exists w', rest. split; [reflexivity | exact Hl].
Qed.

(** X4.  An [audio_data] or [text_data] envelope without a [data] field ends
    the session: the lookup raises before anything is sent, the endpoint
    leaves through its [finally] clause, the upstream connection is closed if
    there is one, and the client is sent nothing. *)
Theorem missing_data_ends_session fields kind w :
  lookup "type" fields = Some kind ->
  py_eq_str kind "audio_data" || py_eq_str kind "text_data" = true ->
  lookup "data" fields = None ->
  serving w = true ->
  let '(r, w', out) := step (ClientEnvelope (JObj fields)) w in
  r = Ok tt /\ torn_down w w' out /\ up_sends out = [] /\ down_sends out = [].
Proof.
  intros Hty Hk Hd Hs. rewrite (step_serving _ _ Hs).
  assert (Hb : dispatch (JObj fields) w = (Raise (mk_exn KeyError "'data'"), w, [])).
  { unfold dispatch. unfold_monad. run_known.
    destruct (py_eq_str kind "audio_data"); simpl in Hk; run_known; reflexivity. }
  destruct (in_try_raised _ _ _ _ _ Hb) as (w' & rest & -> & Hl).
  split; [reflexivity | exact Hl].
Qed.

Lemma missing_data_ends_session_witness :
  let '(r, w', out) :=
    step (ClientEnvelope (JObj [("type", JStr "audio_data")])) (connected_world [] []) in
  r = Ok tt /\ torn_down (connected_world [] []) w' out /\
  up_sends out = [] /\ down_sends out = [].
Proof.
  apply (missing_data_ends_session [("type", JStr "audio_data")] (JStr "audio_data")
           (connected_world [] [])); reflexivity.
Defined.

(** X5.  A downstream frame that is valid JSON but not an object (a list, a
    string, a number, [true], [null]) ends the session: [message.get] raises,
    the endpoint leaves through its [finally] clause, and the client is sent
    nothing. *)
Theorem non_object_frame_ends_session message w :
  (forall fields, message <> JObj fields) ->
  serving w = true ->
  let '(r, w', out) := step (ClientEnvelope message) w in
  r = Ok tt /\ torn_down w w' out /\ up_sends out = [] /\ down_sends out = [].
Proof.
  intros Hno Hs. rewrite (step_serving _ _ Hs).
  assert (Hb : exists e, dispatch message w = (Raise e, w, [])).
  { unfold dispatch. unfold_monad.
    destruct message as [| | | | | |fields]; simpl; eauto.
    now destruct (Hno fields). }
  destruct Hb as [e Hb].
  destruct (in_try_raised _ _ _ _ _ Hb) as (w' & rest & -> & Hl).
  split; [reflexivity | exact Hl].
Qed.

Lemma non_object_frame_ends_session_witness :
  let '(r, w', out) :=
    step (ClientEnvelope (JArr [JStr "ping"])) (connected_world [] []) in
  r = Ok tt /\ torn_down (connected_world [] []) w' out /\
  up_sends out = [] /\ down_sends out = [].
Proof.
  apply (non_object_frame_ends_session (JArr [JStr "ping"]) (connected_world [] [])).
  - intros fields H. discriminate.
  - reflexivity.
Defined.

(** X6.  A [pong] that cannot be delivered ends the session: unlike a failed
    upstream send, a failed downstream send in the endpoint loop is not caught
    where it is made, so the endpoint leaves through its [finally] clause and
    closes the upstream connection if there is one. *)
Theorem failed_pong_ends_session fields w e :
  lookup "type" fields = Some (JStr "ping") ->
  serving w = true ->
  hd None (down_results w) = Some e ->
  let '(r, w', out) := step (ClientEnvelope (JObj fields)) w in
  r = Ok tt /\
  serving w' = false /\ is_connected w' = false /\ registered w' = false /\
  closes out = (if gemini_ws w then 1 else 0) /\
  down_sends out = [pong] /\ up_sends out = [].
Proof.
  intros Hty Hs He. rewrite (step_serving _ _ Hs).
  assert (Hb : dispatch (JObj fields) w
               = (Raise e, set_down_results (tl (down_results w)) w, [DownSend pong])).
  { unfold dispatch, client_send_json. unfold_monad. run_known. reflexivity. }
  destruct (in_try_raised _ _ _ _ _ Hb) as (w' & rest & -> & Hl & Hup & Hdown).
  destruct Hl as (H1 & H2 & H3 & H4 & H5). simpl in H5.
  unfold closes, count in *. simpl. rewrite Hup, Hdown. repeat split; assumption.
Qed.

Lemma failed_pong_ends_session_witness :
  let '(r, w', out) :=
    step (ClientEnvelope (JObj [("type", JStr "ping")]))
         (connected_world [] [Some (mk_exn WebSocketDisconnect "1001")]) in
  r = Ok tt /\
  serving w' = false /\ is_connected w' = false /\ registered w' = false /\
  closes out = 1 /\
  down_sends out = [pong] /\ up_sends out = [].
Proof.
  apply (failed_pong_ends_session [("type", JStr "ping")]
           (connected_world [] [Some (mk_exn WebSocketDisconnect "1001")])
           (mk_exn WebSocketDisconnect "1001")); reflexivity.
Defined.

(** X7.  When the client leaves (the iteration over its frames ends, or
    raises), the endpoint tears the session down: the upstream connection is
    closed if there is one, the session is marked disconnected and removed
    from the registry, and nothing is sent on either socket. *)
Theorem client_leaving_tears_down i w :
  i = ClientEnds \/ (exists e, i = ClientRaises e) ->
  serving w = true ->
  let '(r, w', out) := step i w in
  r = Ok tt /\ torn_down w w' out /\ up_sends out = [] /\ down_sends out = [].
Proof.
  intros [->|[e ->]] Hs.
  - unfold step, endpoint_finally, close, torn_down. unfold_monad.
    destruct w as [g c r s l k cr u d]. simpl in Hs. subst s.
    destruct g, r; simpl; repeat split; reflexivity.
  - pose proof (leave_through_except e w) as Hl.
    unfold step. unfold_monad. rewrite Hs. unfold bind in Hl.
    destruct (endpoint_except e w) as [[[[]|e1] w1] out1].
    + destruct (endpoint_finally w1) as [[r2 w2] out2]. exact Hl.
    + exact Hl.
Qed.

Lemma client_leaving_tears_down_witness :
  let '(r, w', out) := step ClientEnds (connected_world [] []) in
  r = Ok tt /\ torn_down (connected_world [] []) w' out /\
  up_sends out = [] /\ down_sends out = [].
Proof.
  apply (client_leaving_tears_down ClientEnds (connected_world [] [])).
  - left. reflexivity.
  - reflexivity.
Defined.

(** ** The listener *)

Lemma forward_part_relayed part w :
  let '(_, _, out) := forward_part part w in
  Forall (fun p => relayed p = true) (down_sends out).
Proof.
  unfold forward_part, client_send_json. unfold_monad.
  repeat (break_match; simpl in *; try congruence).
  all: repeat constructor.
Qed.

Lemma for_each_relayed parts : forall w,
  let '(_, _, out) := for_each forward_part parts w in
  Forall (fun p => relayed p = true) (down_sends out).
Proof.
  induction parts as [|part parts IH]; intros w; [constructor|].
  simpl. unfold bind.
  pose proof (forward_part_relayed part w) as Hp.
  destruct (forward_part part w) as [[[[]|e] w1] out1]; [|exact Hp].
  specialize (IH w1). destruct (for_each forward_part parts w1) as [[r2 w2] out2].
  rewrite down_sends_app. apply Forall_app. now split.
Qed.

Lemma handle_relayed message w :
  let '(_, _, out) := handle_gemini_message message w in
  Forall (fun p => relayed p = true) (down_sends out).
Proof.
  unfold handle_gemini_message, client_send_json. unfold_monad.
  destruct (py_contains "serverContent" message) as [[|]|e]; simpl;
    [| |constructor].
  - destruct (py_getitem message "serverContent") as [content|e]; simpl;
      [|constructor].
    destruct (py_contains "modelTurn" content) as [[|]|e]; simpl; [| |constructor].
    + destruct (py_getitem content "modelTurn") as [turn|e]; simpl; [|constructor].
      destruct (py_getitem turn "parts") as [parts|e]; simpl; [|constructor].
      destruct (py_iter parts) as [items|e]; simpl; [|constructor].
      pose proof (for_each_relayed items w) as H.
      destruct (for_each forward_part items w) as [[r w'] out]. exact H.
    + destruct (py_contains "turnComplete" content) as [[|]|e]; simpl;
        [|constructor|constructor].
      destruct (hd None (down_results w)); simpl; repeat constructor.
  - destruct (py_contains "setupComplete" message) as [[|]|e]; simpl;
      [|constructor|constructor].
    destruct (hd None (down_results w)); simpl; repeat constructor.
Qed.

Lemma down_or_log_closes out : Forall down_or_log out -> closes out = 0.
Proof.
  unfold closes, count.
  induction 1 as [|ev out Hev _ IH]; [reflexivity|].
  destruct ev; simpl in *; try contradiction; assumption.
Qed.

Lemma listen_frame_summary decoded w :
  let '(r, w', out) := listen_frame decoded w in
  r = Ok tt /\
  w' = set_down_results (down_results w') w /\
  up_sends out = [] /\ closes out = 0 /\ connects out = 0 /\
  Forall (fun p => relayed p = true) (down_sends out).
Proof.
  destruct (listen_frame_returns decoded w) as (w' & out & Hrun).
  pose proof (listener_like_listen_frame decoded w) as Hlike.
  rewrite Hrun in Hlike |- *. destruct Hlike as [Hw' Hout].
  split; [reflexivity|]. split; [exact Hw'|].
  split; [now apply down_or_log_up_sends|].
  split; [now apply down_or_log_closes|].
  split; [now apply down_or_log_connects|].
  revert Hrun. unfold listen_frame, try_except, logger_error, emit, bind, lift.
  destruct decoded as [data|e]; simpl.
  - pose proof (handle_relayed data w) as Hr.
    destruct (handle_gemini_message data w) as [[[[]|e] w1] out1].
    + intros H. injection H as _ <-. exact Hr.
    + destruct (class_of e); simpl; intros H; injection H as _ <-;
        rewrite down_sends_app; simpl; now rewrite app_nil_r.
  - destruct (class_of e); simpl; intros H; injection H as _ <-; constructor.
Qed.

(** X8.  Whatever an upstream frame holds (malformed text, any JSON value,
    parts of any shape), handling it stays inside the listener: no exception
    leaves the loop body, nothing is sent upstream, no connection is opened or
    closed, the session object is untouched, and the only envelopes sent
    downstream are [audio_response], [text_response], [turn_complete] and
    [setup_complete]. *)
Theorem listener_frame_contained decoded w :
  let '(r, w', out) := listen_frame decoded w in
  r = Ok tt /\
  w' = set_down_results (down_results w') w /\
  up_sends out = [] /\ closes out = 0 /\ connects out = 0 /\
  Forall (fun p => relayed p = true) (down_sends out).
Proof. apply listen_frame_summary. Qed.

(** X9.  When the upstream connection closes under the listener, the session
    is marked disconnected and the client is sent one [connection_status]
    envelope with status "disconnected"; the listener ends, but the endpoint
    goes on serving and the upstream connection object is not closed. *)
Theorem upstream_close_notified e w :
  class_of e = ConnectionClosed ->
  listening w = true ->
  let '(r, w', out) := step (GeminiRaises e) w in
  r = Ok tt /\
  is_connected w' = false /\ listening w' = false /\
  serving w' = serving w /\ gemini_ws w' = gemini_ws w /\
  registered w' = registered w /\
  down_sends out = [connection_status "disconnected"] /\
  up_sends out = [] /\ closes out = 0.
Proof.
  intros He Hl.
  unfold step, in_task, listen_raised, client_send_json. unfold_monad.
  rewrite Hl, He. simpl.
  destruct (hd None (down_results w)); simpl; repeat split; reflexivity.
Qed.

Lemma upstream_close_notified_witness :
  let '(r, w', out) :=
    step (GeminiRaises (mk_exn ConnectionClosed "no close frame received or sent"))
         (connected_world [] []) in
  r = Ok tt /\
  is_connected w' = false /\ listening w' = false /\
  serving w' = true /\ gemini_ws w' = true /\
  registered w' = true /\
  down_sends out = [connection_status "disconnected"] /\
  up_sends out = [] /\ closes out = 0.
Proof.
  apply (upstream_close_notified
           (mk_exn ConnectionClosed "no close frame received or sent")
           (connected_world [] [])); reflexivity.
Defined.

(** X10.  When the upstream stream ends normally, or the iteration raises
    anything but [ConnectionClosed], the listener ends without telling the
    client and without clearing the connected flag: only the listener is gone,
    and in the second case one error line is logged. *)
Theorem silent_listener_exit i w :
  i = GeminiEnds \/
  (exists e, i = GeminiRaises e /\ class_of e <> ConnectionClosed) ->
  listening w = true ->
  let '(r, w', out) := step i w in
  r = Ok tt /\
  w' = set_listening false w /\
  is_connected w' = is_connected w /\
  down_sends out = [] /\ up_sends out = [] /\
  (i = GeminiEnds -> out = []) /\
  (forall e, i = GeminiRaises e ->
             out = [Log ERROR "Error in Gemini listener: " (ExnArg e)]).
Proof.
  intros [->|(e & -> & He)] Hl.
  - unfold step. unfold_monad. simpl. repeat split; intros; congruence.
  - unfold step, in_task, listen_raised. unfold_monad. rewrite Hl.
    destruct (class_of e) eqn:Hc; try congruence; simpl;
      repeat split; intros; try discriminate;
      match goal with H : GeminiRaises _ = GeminiRaises _ |- _ =>
        injection H as <- end; reflexivity.
Qed.

Lemma silent_listener_exit_witness :
  let '(r, w', out) :=
    step (GeminiRaises (mk_exn OtherException "boom")) (connected_world [] []) in
  r = Ok tt /\
  w' = set_listening false (connected_world [] []) /\
  is_connected w' = is_connected (connected_world [] []) /\
  down_sends out = [] /\ up_sends out = [] /\
  (GeminiRaises (mk_exn OtherException "boom") = GeminiEnds -> out = []) /\
  (forall e, GeminiRaises (mk_exn OtherException "boom") = GeminiRaises e ->
             out = [Log ERROR "Error in Gemini listener: " (ExnArg e)]).
Proof.
  apply (silent_listener_exit (GeminiRaises (mk_exn OtherException "boom"))
           (connected_world [] [])).
  - right. exists (mk_exn OtherException "boom"). split; [reflexivity|].
    simpl. discriminate.
  - reflexivity.
Defined.

(** X11.  An upstream message of no recognised shape is dropped without a
    trace: an object with neither [serverContent] nor [setupComplete], or one
    whose [serverContent] object has neither a model turn nor the completion
    marker (a [setupComplete] beside it is then not looked at). *)
Theorem unknown_upstream_message_ignored fields w :
  (lookup "serverContent" fields = None /\ lookup "setupComplete" fields = None) \/
  (exists content,
     lookup "serverContent" fields = Some (JObj content) /\
     lookup "modelTurn" content = None /\
     lookup "turnComplete" content = None) ->
  listening w = true ->
  step (GeminiFrame (Ok (JObj fields))) w = (Ok tt, w, []).
Proof.
  intros [[Hc Hs]|(content & Hc & Ht & Hm)] Hl;
    unfold step, listen_frame, handle_gemini_message; unfold_monad;
    run_known; reflexivity.
Qed.

Lemma unknown_upstream_message_ignored_witness :
  step (GeminiFrame (Ok (JObj [("serverContent", JObj [("interrupted", JBool true)]);
                               ("setupComplete", JObj [])])))
       (connected_world [] [])
  = (Ok tt, connected_world [] [], []).
Proof.
  apply (unknown_upstream_message_ignored
           [("serverContent", JObj [("interrupted", JBool true)]);
            ("setupComplete", JObj [])]
           (connected_world [] [])).
  - right. exists [("interrupted", JBool true)]. repeat split; reflexivity.
  - reflexivity.
Defined.

Lemma forward_part_lacking_mime_type part w :
  lacks_mime_type part = true ->
  forward_part part w = (Raise (mk_exn KeyError "'mimeType'"), w, []).
Proof.
  unfold lacks_mime_type. intros H.
  destruct part as [| | | | | |fields]; try discriminate.
  destruct (lookup "inlineData" fields) as [[| | | | | |inline]|] eqn:Hi;
    try discriminate.
  destruct (lookup "mimeType" inline) eqn:Hm; try discriminate.
  unfold forward_part. unfold_monad. run_known. reflexivity.
Qed.

(** X12.  A part whose inline data has no MIME type makes the translator
    raise: the parts before it have been forwarded, the parts after it are not
    looked at, and the listener logs the error and goes on with the next
    frame. *)
Theorem raising_part_drops_the_rest message before bad after views w :
  model_turn_parts message = Some (before ++ bad :: after)%list ->
  map part_view before = map Some views ->
  lacks_mime_type bad = true ->
  down_ok w ->
  let '(r, _, out) := listen_frame (Ok message) w in
  r = Ok tt /\
  out = (map DownSend (map part_envelope views)
         ++ [Log ERROR "Error handling Gemini message: "
               (ExnArg (mk_exn KeyError "'mimeType'"))])%list.
Proof.
  intros Hparts Hviews Hbad Hok.
  destruct (for_each_forward_views before views w Hviews Hok) as (w1 & Hrun & _).
  unfold listen_frame, try_except, bind at 1, lift.
  rewrite (handle_model_turn _ _ _ Hparts), for_each_app.
  unfold bind at 1. rewrite Hrun. simpl for_each. unfold bind at 1.
  rewrite (forward_part_lacking_mime_type bad w1 Hbad). simpl.
  rewrite app_nil_r. split; reflexivity.
Qed.

Lemma raising_part_drops_the_rest_witness :
  let '(r, _, out) :=
    listen_frame
      (Ok (JObj [("serverContent", JObj [("modelTurn", JObj [("parts", JArr [
             JObj [("text", JStr "one")];
             JObj [("inlineData", JObj [("data", JStr "AAAA")])];
             JObj [("text", JStr "two")]])])])]))
      (connected_world [] []) in
  r = Ok tt /\
  out = (map DownSend (map part_envelope [TextPart (JStr "one")])
         ++ [Log ERROR "Error handling Gemini message: "
               (ExnArg (mk_exn KeyError "'mimeType'"))])%list.
Proof.
  apply (raising_part_drops_the_rest _
           [JObj [("text", JStr "one")]]
           (JObj [("inlineData", JObj [("data", JStr "AAAA")])])
           [JObj [("text", JStr "two")]]
           [TextPart (JStr "one")]
           (connected_world [] [])).
  - reflexivity.
  - reflexivity.
  - reflexivity.
  - constructor.
Defined.

Lemma forward_part_view_raises part k e w :
  part_view part = Some k ->
  hd None (down_results w) = Some e ->
  forward_part part w
  = (Raise e, set_down_results (tl (down_results w)) w, [DownSend (part_envelope k)]).
Proof.
  unfold part_view. intros Hv He.
  destruct part as [| | | | | |fields]; try discriminate.
  unfold forward_part, client_send_json. unfold_monad. simpl.
  destruct (lookup "inlineData" fields) as [[| | | | | |inline]|] eqn:Hi; try discriminate.
  - destruct (lookup "mimeType" inline) as [mime|] eqn:Hm; try discriminate.
    destruct (lookup "data" inline) as [data|] eqn:Hd; try discriminate.
    destruct (py_eq_str mime "audio/pcm") eqn:Hq; try discriminate.
    injection Hv as <-. run_known. reflexivity.
  - destruct (lookup "text" fields) as [text|] eqn:Ht; try discriminate.
    injection Hv as <-. run_known. reflexivity.
Qed.

(** X13.  When forwarding a part to the client raises, the listener catches
    it: the rest of the turn is not forwarded, one error line is logged, and
    the session is otherwise unchanged (still serving, still marked
    connected); unlike a failed [pong], this does not end the session. *)
Theorem failed_forward_skips_rest_of_turn message part parts k e w :
  model_turn_parts message = Some (part :: parts) ->
  part_view part = Some k ->
  hd None (down_results w) = Some e ->
  let '(r, w', out) := listen_frame (Ok message) w in
  r = Ok tt /\
  w' = set_down_results (tl (down_results w)) w /\
  (exists text,
     out = [DownSend (part_envelope k); Log ERROR text (ExnArg e)]).
Proof.
  intros Hparts Hview He.
  unfold listen_frame, try_except, bind at 1, lift.
  rewrite (handle_model_turn _ _ _ Hparts). simpl for_each. unfold bind at 1.
  rewrite (forward_part_view_raises _ _ _ _ Hview He).
  unfold logger_error, emit.
  destruct (class_of e); simpl; repeat split; eauto.
Qed.

Lemma failed_forward_skips_rest_of_turn_witness :
  let '(r, w', out) :=
    listen_frame (Ok sample_turn)
      (connected_world [] [Some (mk_exn WebSocketDisconnect "1001")]) in
  r = Ok tt /\
  w' = set_down_results
         (tl (down_results (connected_world [] [Some (mk_exn WebSocketDisconnect "1001")])))
         (connected_world [] [Some (mk_exn WebSocketDisconnect "1001")]) /\
  (exists text,
     out = [DownSend (part_envelope (TextPart (JStr "Hello")));
            Log ERROR text (ExnArg (mk_exn WebSocketDisconnect "1001"))]).
Proof.
  apply (failed_forward_skips_rest_of_turn sample_turn
           (JObj [("text", JStr "Hello")])
           [JObj [("inlineData", JObj [("mimeType", JStr "audio/pcm"); ("data", JStr "AAAA")])];
            JObj [("text", JStr "rider")]]
           (TextPart (JStr "Hello"))
           (mk_exn WebSocketDisconnect "1001")
           (connected_world [] [Some (mk_exn WebSocketDisconnect "1001")]));
    reflexivity.
Defined.

(** ** Closing *)

(** X14.  [close] marks the session disconnected but keeps the connection
    object, so calling it again changes nothing in the session and calls
    [close] on the upstream connection once more. *)
Theorem close_again_repeats_upstream_close w :
  let '(r1, w1, out1) := close w in
  let '(r2, w2, out2) := close w1 in
  r1 = Ok tt /\ r2 = Ok tt /\
  is_connected w1 = false /\ gemini_ws w1 = gemini_ws w /\
  w2 = w1 /\ out2 = out1 /\
  closes out1 = (if gemini_ws w then 1 else 0).
Proof.
  unfold close. unfold_monad. destruct w as [g c r s l k cr u d].
  destruct g; simpl; repeat split; reflexivity.
Qed.

(** ** Opening the session *)

(** X15.  With a credential, a connect that returns and sends that succeed,
    entering the endpoint does this, in this order: accept, connect to the
    service URL with the credential as its [key] parameter, send the setup
    message, tell the client "connected", start the listener.  The session is
    then connected, registered and serving. *)
Theorem connection_established c rest ups downs :
  hd None ups = None ->
  hd None downs = None ->
  endpoint_enter (fresh (Some (String c rest)) None ups downs)
  = (Ok tt,
     mk_world true true true true true (Some (String c rest)) None (tl ups) (tl downs),
     [Accept;
      Log INFO "Connecting to Gemini Live API..." NoArg;
      Connect (GEMINI_WS_URL ++ "?key=" ++ String c rest);
      UpSend setup_message;
      Log INFO "Session setup sent to Gemini" NoArg;
      DownSend (connection_status "connected");
      Log INFO "Successfully connected to Gemini Live API" NoArg;
      CreateTask]).
Proof.
  intros Hu Hd.
  unfold endpoint_enter, in_try, connect_to_gemini, websockets_connect,
    setup_session, create_task, gemini_send, client_send_json, fresh.
  unfold_monad. cbn -[setup_message GEMINI_WS_URL append]. rewrite Hu.
  cbn -[setup_message GEMINI_WS_URL append]. rewrite Hd. reflexivity.
Qed.

Lemma connection_established_witness :
  endpoint_enter (fresh (Some "k") None [] [])
  = (Ok tt,
     mk_world true true true true true (Some "k") None [] [],
     [Accept;
      Log INFO "Connecting to Gemini Live API..." NoArg;
      Connect (GEMINI_WS_URL ++ "?key=" ++ "k");
      UpSend setup_message;
      Log INFO "Session setup sent to Gemini" NoArg;
      DownSend (connection_status "connected");
      Log INFO "Successfully connected to Gemini Live API" NoArg;
      CreateTask]).
Proof.
  apply (connection_established "k"%char EmptyString [] []); reflexivity.
Defined.

(** X16.  When the connection opens but sending the setup message raises,
    the client is sent the [error] envelope and no "connected" notice, and no
    listener is started; yet, if that envelope is delivered, the session goes
    on serving marked connected with its connection object, so later content
    is still forwarded upstream. *)
Theorem failed_handshake_leaves_session_connected c rest ups downs e :
  hd None ups = Some e ->
  let '(r, w1, out1) := endpoint_enter (fresh (Some (String c rest)) None ups downs) in
  r = Ok tt /\
  gemini_ws w1 = true /\ listening w1 = false /\
  up_sends out1 = [setup_message] /\
  down_sends out1 = [error_envelope ("Failed to connect to AI service: " ++ str e)] /\
  (hd None downs = None -> serving w1 = true /\ is_connected w1 = true).
Proof.
  intros Hu.
  unfold endpoint_enter, in_try, connect_to_gemini, websockets_connect,
    setup_session, create_task, gemini_send, client_send_json,
    endpoint_except, endpoint_finally, close, fresh.
  unfold_monad. cbn -[setup_message GEMINI_WS_URL append]. rewrite Hu.
  cbn -[setup_message GEMINI_WS_URL append].
  destruct (hd None downs) as [e'|]; cbn -[setup_message GEMINI_WS_URL append].
  - destruct (class_of e'); cbn -[setup_message GEMINI_WS_URL append];
      repeat split; intros; first [reflexivity | discriminate].
  - repeat split; reflexivity.
Qed.

Lemma failed_handshake_leaves_session_connected_witness :
  let '(r, w1, out1) :=
    endpoint_enter (fresh (Some "k") None [Some (mk_exn ConnectionClosed "1008")] []) in
  r = Ok tt /\
  gemini_ws w1 = true /\ listening w1 = false /\
  up_sends out1 = [setup_message] /\
  down_sends out1 = [error_envelope ("Failed to connect to AI service: " ++ "1008")] /\
  (hd None (@nil (option exn)) = None -> serving w1 = true /\ is_connected w1 = true).
Proof.
  apply (failed_handshake_leaves_session_connected "k"%char EmptyString
           [Some (mk_exn ConnectionClosed "1008")] []
           (mk_exn ConnectionClosed "1008")).
  reflexivity.
Defined.

Lemma enter_connects key conn ups downs :
  let '(_, _, out1) := endpoint_enter (fresh key conn ups downs) in
  connects out1 = match key with Some (String _ _) => 1 | _ => 0 end.
Proof.
  unfold endpoint_enter, in_try, connect_to_gemini, websockets_connect,
    setup_session, create_task, gemini_send, client_send_json,
    endpoint_except, endpoint_finally, close, fresh.
  unfold_monad.
  destruct key as [[|c k]|]; cbn -[setup_message GEMINI_WS_URL append].
  all: repeat (break_match; cbn -[setup_message GEMINI_WS_URL append] in *;
               try congruence).
  all: reflexivity.
Qed.

(** X17.  A session makes one connection attempt if the credential is set
    and not empty, and none otherwise; whatever arrives afterwards, it never
    tries again. *)
Theorem one_connection_attempt key conn ups downs inputs :
  let '(_, _, out) := websocket_endpoint inputs (fresh key conn ups downs) in
  connects out = match key with Some (String _ _) => 1 | _ => 0 end.
Proof.
  unfold websocket_endpoint, bind.
  pose proof (enter_connects key conn ups downs) as He.
  destruct (endpoint_enter (fresh key conn ups downs)) as [[[[]|e] w1] out1];
    [|exact He].
  pose proof (run_summary inputs w1) as Hr.
  destruct (run inputs w1) as [[r2 w2] out2].
  destruct Hr as (_ & _ & Hc & _).
  rewrite connects_app, He, Hc. apply Nat.add_0_r.
Qed.

(** X18.  Once a session is marked disconnected it stays so: whatever
    arrives, nothing is sent upstream again and no connection is opened. *)
Theorem disconnected_session_stays_silent inputs w :
  is_connected w = false ->
  let '(r, w', out) := run inputs w in
  r = Ok tt /\ is_connected w' = false /\ up_sends out = [] /\ connects out = 0.
Proof.
  intros Hc. pose proof (run_summary inputs w) as Hr.
  destruct (run inputs w) as [[r w'] out].
  destruct Hr as (-> & _ & Hn & Hconn & _). destruct (Hconn Hc) as [H1 H2].
  repeat split; assumption.
Qed.

Lemma disconnected_session_stays_silent_witness :
  let '(r, w', out) :=
    run [GeminiFrame (Ok sample_turn);
         ClientEnvelope (JObj [("type", JStr "audio_data"); ("data", JStr "QUJD")]);
         ClientEnvelope (JObj [("type", JStr "interrupt")])]
        (mk_world true false true true true (Some "k") None [] []) in
  r = Ok tt /\ is_connected w' = false /\ up_sends out = [] /\ connects out = 0.
Proof.
  apply (disconnected_session_stays_silent
           [GeminiFrame (Ok sample_turn);
            ClientEnvelope (JObj [("type", JStr "audio_data"); ("data", JStr "QUJD")]);
            ClientEnvelope (JObj [("type", JStr "interrupt")])]
           (mk_world true false true true true (Some "k") None [] [])).
  reflexivity.
Defined.

(** ** The life of a session *)

Lemma relayed_is_no_status status p : relayed p = true -> is_status status p = false.
Proof.
  unfold relayed, is_status, has_type.
  destruct (py_get p "type") as [[| | | |t| |]|e]; simpl; try discriminate;
    try reflexivity.
  intros H.
  destruct (String.eqb_spec t "connection_status") as [->|Hn]; [discriminate H|].
  reflexivity.
Qed.

Lemma relayed_has_no_status status l :
  Forall (fun p => relayed p = true) l -> count (is_status status) l = 0.
Proof.
  unfold count. induction 1 as [|p l Hp _ IH]; [reflexivity|].
  simpl. rewrite (relayed_is_no_status status p Hp). exact IH.
Qed.

Ltac finish_lifecycle :=
  repeat split; intros; unfold closes, count in *; simpl in *;
  first [congruence | reflexivity | lia | discriminate].

Lemma client_step_lifecycle message w :
  lifecycle_ok w (step (ClientEnvelope message) w).
Proof.
  destruct w as [g c r s l k cr u d].
  unfold step, in_try, dispatch, send_audio_to_gemini, send_text_to_gemini,
    interrupt_gemini, endpoint_except, endpoint_finally, close, not_connected,
    gemini_send, client_send_json.
  unfold_monad. unfold lifecycle_ok.
  repeat (break_match; simpl in *; try congruence).
  all: finish_lifecycle.
Qed.

Lemma client_ends_lifecycle w : lifecycle_ok w (step ClientEnds w).
Proof.
  destruct w as [g c r s l k cr u d].
  unfold step, endpoint_finally, close. unfold_monad. unfold lifecycle_ok.
  repeat (break_match; simpl in *; try congruence).
  all: finish_lifecycle.
Qed.

Lemma client_raises_lifecycle e w : lifecycle_ok w (step (ClientRaises e) w).
Proof.
  destruct w as [g c r s l k cr u d].
  unfold step, endpoint_except, endpoint_finally, close. unfold_monad.
  unfold lifecycle_ok.
  repeat (break_match; simpl in *; try congruence).
  all: finish_lifecycle.
Qed.

Lemma gemini_frame_lifecycle decoded w : lifecycle_ok w (step (GeminiFrame decoded) w).
Proof.
  unfold step. unfold_monad. simpl.
  destruct (listening w) eqn:Hl.
  - pose proof (listen_frame_summary decoded w) as H.
    destruct (listen_frame decoded w) as [[r w'] out].
    destruct H as (_ & Hw' & _ & Hcl & _ & Hrel).
    pose proof (relayed_has_no_status "disconnected" _ Hrel) as Hnd.
    unfold lifecycle_ok. rewrite Hcl, Hnd, Hw'.
    destruct w as [g c r0 s l k cr u d]. simpl in *.
    destruct s; finish_lifecycle.
  - unfold lifecycle_ok. simpl.
    destruct (serving w); finish_lifecycle.
Qed.

Lemma gemini_ends_lifecycle w : lifecycle_ok w (step GeminiEnds w).
Proof.
  destruct w as [g c r s l k cr u d].
  unfold step. unfold_monad. unfold lifecycle_ok. simpl.
  destruct s; finish_lifecycle.
Qed.

Lemma gemini_raises_lifecycle e w : lifecycle_ok w (step (GeminiRaises e) w).
Proof.
  destruct w as [g c r s l k cr u d].
  unfold step, in_task, listen_raised, client_send_json. unfold_monad.
  unfold lifecycle_ok.
  repeat (break_match; simpl in *; try congruence).
  all: finish_lifecycle.
Qed.

Lemma step_lifecycle i w : lifecycle_ok w (step i w).
Proof.
  destruct i; auto using client_step_lifecycle, client_ends_lifecycle,
    client_raises_lifecycle, gemini_frame_lifecycle, gemini_ends_lifecycle,
    gemini_raises_lifecycle.
Qed.

Lemma closes_app t1 t2 : closes (t1 ++ t2) = closes t1 + closes t2.
Proof. unfold closes, count. now rewrite filter_app, length_app. Qed.

Lemma count_app {A} (p : A -> bool) l1 l2 :
  count p (l1 ++ l2) = count p l1 + count p l2.
Proof. unfold count. now rewrite filter_app, length_app. Qed.

Lemma run_lifecycle inputs : forall w, lifecycle_ok w (run inputs w).
Proof.
  induction inputs as [|i inputs IH]; intros w.
  - unfold run, lifecycle_ok. simpl.
    destruct (serving w); finish_lifecycle.
  - unfold run in *. simpl. unfold bind.
    pose proof (step_lifecycle i w) as Hi.
    pose proof (step_summary i w) as Hok.
    destruct (step i w) as [[r1 w1] out1].
    destruct Hok as (-> & _).
    specialize (IH w1). destruct (for_each step inputs w1) as [[r2 w2] out2].
    unfold lifecycle_ok in *.
    destruct Hi as (Hg1 & Hr1 & Hs1 & Hc1 & Hl1 & Hn1 & Hd1).
    destruct IH as (Hg2 & Hr2 & Hs2 & Hc2 & Hl2 & Hn2 & Hd2).
    rewrite closes_app, down_sends_app, count_app.
    split; [congruence|]. split; [auto|]. split.
    { intros Hs. destruct (Hs1 Hs) as [Hs' Hz]. destruct (Hs2 Hs') as [Hs'' Hz'].
      split; [assumption | lia]. }
    split.
    { intros Hs. specialize (Hc1 Hs). destruct (serving w1) eqn:Hs'.
      - rewrite Hc1, (Hc2 eq_refl), Hg1. reflexivity.
      - destruct (Hs2 eq_refl) as [-> ->]. rewrite Hc1. lia. }
    split.
    { intros Hl. destruct (Hl1 Hl) as [Hl' Hz]. destruct (Hl2 Hl') as [Hl'' Hz'].
      split; [assumption | lia]. }
    split.
    { destruct (Nat.eq_dec (count (is_status "disconnected") (down_sends out1)) 1)
        as [H1|H1].
      - destruct (Hl2 (Hd1 H1)) as [_ Hz]. lia.
      - lia. }
    intros Hsum.
    destruct (Nat.eq_dec (count (is_status "disconnected") (down_sends out1)) 1)
      as [H1|H1].
    + destruct (Hl2 (Hd1 H1)) as [Hl'' _]. exact Hl''.
    + apply Hd2. lia.
Qed.

Lemma enter_lifecycle key conn ups downs :
  let '(r, w1, out1) := endpoint_enter (fresh key conn ups downs) in
  r = Ok tt /\
  registered w1 = serving w1 /\
  closes out1 = (if serving w1 then 0 else if gemini_ws w1 then 1 else 0) /\
  count (is_status "disconnected") (down_sends out1) = 0.
Proof.
  unfold endpoint_enter, in_try, connect_to_gemini, websockets_connect,
    setup_session, create_task, gemini_send, client_send_json,
    endpoint_except, endpoint_finally, close, fresh.
  unfold_monad.
  destruct key as [[|c k]|]; cbn -[setup_message GEMINI_WS_URL append].
  all: repeat (break_match; cbn -[setup_message GEMINI_WS_URL append] in *;
               try congruence).
  all: repeat split; reflexivity.
Qed.

Lemma leaving_stops_serving i w :
  client_leaves i = true ->
  let '(_, w', _) := step i w in serving w' = false.
Proof.
  destruct w as [g c r s l k cr u d].
  destruct i; try discriminate; intros _;
    unfold step, endpoint_except, endpoint_finally, close; unfold_monad;
    repeat (break_match; simpl in *; try congruence).
Qed.

Lemma run_after_leaving inputs : forall w,
  registered w = serving w ->
  (serving w = false \/ existsb client_leaves inputs = true) ->
  let '(_, w', _) := run inputs w in registered w' = false.
Proof.
  unfold run. induction inputs as [|i inputs IH]; intros w Hreg Hcase.
  - simpl. destruct Hcase as [Hs|Hin]; [congruence | discriminate].
  - simpl. unfold bind.
    pose proof (step_lifecycle i w) as Hi.
    pose proof (step_summary i w) as Hok.
    pose proof (leaving_stops_serving i w) as Hleave.
    destruct (step i w) as [[r1 w1] out1].
    destruct Hok as (-> & _).
    destruct Hi as (_ & Hr1 & Hs1 & _).
    assert (Hnext : serving w1 = false \/ existsb client_leaves inputs = true).
    { destruct Hcase as [Hs|Hin].
      - left. now apply Hs1.
      - simpl in Hin. apply orb_true_iff in Hin. destruct Hin as [Hi|Hin].
        + left. now apply Hleave.
        + right. exact Hin. }
    specialize (IH w1 (Hr1 Hreg) Hnext).
    destruct (for_each step inputs w1) as [[r2 w2] out2]. exact IH.
Qed.

(** X19.  Once the client's frame stream has ended or raised and the
    [finally] clause of the endpoint has run to its end, the session has no
    entry in [active_sessions], whatever arrived before or arrives after and
    whether or not the connection ever opened; the health report does not
    count it. *)
Theorem registry_entry_removed_on_exit key conn ups downs inputs others :
  existsb client_leaves inputs = true ->
  let '(_, w', _) := websocket_endpoint inputs (fresh key conn ups downs) in
  registered w' = false /\
  health_check others w'
  = JObj [("status", JStr "healthy"); ("active_sessions", JInt (Z.of_nat others))].
Proof.
  intros Hin. unfold websocket_endpoint, bind.
  pose proof (enter_lifecycle key conn ups downs) as He.
  destruct (endpoint_enter (fresh key conn ups downs)) as [[r1 w1] out1].
  destruct He as (-> & Hreg & _).
  pose proof (run_after_leaving inputs w1 Hreg (or_intror Hin)) as Hr.
  destruct (run inputs w1) as [[r2 w2] out2].
  split; [exact Hr|].
  unfold health_check. rewrite Hr, Nat.add_0_r. reflexivity.
Qed.

Lemma registry_entry_removed_on_exit_witness :
  let '(_, w', _) :=
    websocket_endpoint
      [ClientEnvelope (JObj [("type", JStr "ping")]);
       GeminiFrame (Ok sample_turn);
       ClientEnds;
       GeminiFrame (Ok sample_turn)]
      (fresh (Some "k") None [] []) in
  registered w' = false /\
  health_check 2 w'
  = JObj [("status", JStr "healthy"); ("active_sessions", JInt (Z.of_nat 2))].
Proof.
  apply (registry_entry_removed_on_exit (Some "k") None [] []
           [ClientEnvelope (JObj [("type", JStr "ping")]);
            GeminiFrame (Ok sample_turn);
            ClientEnds;
            GeminiFrame (Ok sample_turn)]
           2).
  reflexivity.
Defined.

(** X20.  Over a whole session [close] is called on the upstream connection
    at most once: once if a connection was opened and the endpoint has
    returned, never while the endpoint serves and never without a
    connection. *)
Theorem upstream_closed_once_on_exit key conn ups downs inputs :
  let '(_, w', out) := websocket_endpoint inputs (fresh key conn ups downs) in
  closes out = (if serving w' then 0 else if gemini_ws w' then 1 else 0).
Proof.
  unfold websocket_endpoint, bind.
  pose proof (enter_lifecycle key conn ups downs) as He.
  destruct (endpoint_enter (fresh key conn ups downs)) as [[r1 w1] out1].
  destruct He as (-> & _ & Hcl & _).
  pose proof (run_lifecycle inputs w1) as Hr.
  destruct (run inputs w1) as [[r2 w2] out2].
  destruct Hr as (Hg & _ & Hs & Hc & _).
  rewrite closes_app, Hcl, Hg.
  destruct (serving w1) eqn:Hs1.
  - rewrite (Hc eq_refl). reflexivity.
  - destruct (Hs eq_refl) as [-> ->]. apply Nat.add_0_r.
Qed.

(** X21.  Over a whole session the client is sent the "disconnected" notice
    at most once, and once it has been sent the listener is no longer
    running. *)
Theorem disconnected_notice_at_most_once key conn ups downs inputs :
  let '(_, w', out) := websocket_endpoint inputs (fresh key conn ups downs) in
  count (is_status "disconnected") (down_sends out) <= 1 /\
  (count (is_status "disconnected") (down_sends out) = 1 -> listening w' = false).
Proof.
  unfold websocket_endpoint, bind.
  pose proof (enter_lifecycle key conn ups downs) as He.
  destruct (endpoint_enter (fresh key conn ups downs)) as [[r1 w1] out1].
  destruct He as (-> & _ & _ & Hz).
  pose proof (run_lifecycle inputs w1) as Hr.
  destruct (run inputs w1) as [[r2 w2] out2].
  destruct Hr as (_ & _ & _ & _ & _ & Hn & Hd).
  rewrite down_sends_app, count_app, Hz. simpl. split; [exact Hn | exact Hd].
Qed.

(** ** Order of the turns *)

Lemma step_forwards message payload w :
  upstream_payload message = Some payload ->
  serving w = true ->
  is_connected w = true ->
  gemini_ws w = true ->
  exists lvl text arg,
    step (ClientEnvelope message) w
    = (Ok tt, set_up_results (tl (up_results w)) w,
       [UpSend payload; Log lvl text arg]).
Proof.
  unfold upstream_payload. intros Hp Hs Hc Hg.
  destruct message as [| | | | | |fields]; try discriminate.
  destruct (lookup "type" fields) as [kind|] eqn:Hty; try discriminate.
  unfold step, in_try, dispatch, send_audio_to_gemini, send_text_to_gemini,
    interrupt_gemini, not_connected, gemini_send.
  unfold_monad.
  destruct (py_eq_str kind "audio_data") eqn:Ha.
  - destruct (lookup "data" fields) as [data|] eqn:Hd; try discriminate.
    injection Hp as <-. run_known.
    destruct (hd None (up_results w)); simpl; eauto.
  - destruct (py_eq_str kind "text_data") eqn:Ht.
    + destruct (lookup "data" fields) as [data|] eqn:Hd; try discriminate.
      injection Hp as <-. run_known.
      destruct (hd None (up_results w)); simpl; eauto.
    + destruct (py_eq_str kind "interrupt") eqn:Hi; try discriminate.
      injection Hp as <-. run_known.
      destruct (hd None (up_results w)); simpl; eauto.
Qed.

(** X22.  On a connected session, a run of [audio_data], [text_data] and
    [interrupt] envelopes makes exactly one upstream send each, in the order
    the envelopes arrived, each carrying the translation of its envelope;
    this holds whether or not the sends succeed, and the session stays
    connected and serving throughout. *)
Theorem turns_forwarded_in_order messages : forall payloads w,
  map upstream_payload messages = map Some payloads ->
  serving w = true ->
  is_connected w = true ->
  gemini_ws w = true ->
  let '(r, w', out) := run (map ClientEnvelope messages) w in
  r = Ok tt /\
  up_sends out = payloads /\
  down_sends out = [] /\
  serving w' = true /\ is_connected w' = true /\ gemini_ws w' = true.
Proof.
  unfold run.
  induction messages as [|m messages IH]; intros payloads w Hmap Hs Hc Hg.
  - destruct payloads; [|discriminate]. simpl. repeat split; assumption.
  - destruct payloads as [|p payloads]; [discriminate|].
    simpl in Hmap. injection Hmap as Hp Hrest.
    destruct (step_forwards m p w Hp Hs Hc Hg) as (lvl & text & arg & Hstep).
    simpl. rewrite (bind_Ok _ _ _ _ _ _ Hstep).
    specialize (IH payloads (set_up_results (tl (up_results w)) w) Hrest Hs Hc Hg).
    destruct (for_each step (map ClientEnvelope messages)
                (set_up_results (tl (up_results w)) w)) as [[r w'] out].
    destruct IH as (-> & Hup & Hdown & Hrest').
    simpl. rewrite Hup, Hdown. repeat split; tauto.
Qed.

Lemma turns_forwarded_in_order_witness :
  let '(r, w', out) :=
    run (map ClientEnvelope
           [JObj [("type", JStr "text_data"); ("data", JStr "range?")];
            JObj [("type", JStr "interrupt")];
            JObj [("type", JStr "audio_data"); ("data", JStr "QUJD")]])
        (connected_world [None; Some (mk_exn ConnectionClosed "1006")] []) in
  r = Ok tt /\
  up_sends out
  = [text_message (JStr "range?"); interrupt_message; audio_message (JStr "QUJD")] /\
  down_sends out = [] /\
  serving w' = true /\ is_connected w' = true /\ gemini_ws w' = true.
Proof.
  apply (turns_forwarded_in_order
           [JObj [("type", JStr "text_data"); ("data", JStr "range?")];
            JObj [("type", JStr "interrupt")];
            JObj [("type", JStr "audio_data"); ("data", JStr "QUJD")]]
           [text_message (JStr "range?"); interrupt_message; audio_message (JStr "QUJD")]
           (connected_world [None; Some (mk_exn ConnectionClosed "1006")] []));
    reflexivity.
Defined.

(** ** Markers *)

(** X23.  The completion marker is recognised by its key alone: a
    [serverContent] object without a model turn that has a [turnComplete]
    field yields one [turn_complete] envelope whatever the field holds, also
    [false] or [null]. *)
Theorem completion_marker_value_ignored fields content value w :
  lookup "serverContent" fields = Some (JObj content) ->
  lookup "modelTurn" content = None ->
  lookup "turnComplete" content = Some value ->
  listening w = true ->
  let '(r, _, out) := step (GeminiFrame (Ok (JObj fields))) w in
  r = Ok tt /\ down_sends out = [turn_complete] /\ up_sends out = [].
Proof.
  intros Hc Ht Hm Hl.
  unfold step, listen_frame, handle_gemini_message, client_send_json.
  unfold_monad. run_known.
  destruct (hd None (down_results w)) as [e|]; simpl.
  - destruct (class_of e); simpl; repeat split; reflexivity.
  - repeat split; reflexivity.
Qed.

Lemma completion_marker_value_ignored_witness :
  let '(r, _, out) :=
    step (GeminiFrame (Ok (JObj [("serverContent",
                                  JObj [("turnComplete", JBool false)])])))
         (connected_world [] []) in
  r = Ok tt /\ down_sends out = [turn_complete] /\ up_sends out = [].
Proof.
  apply (completion_marker_value_ignored
           [("serverContent", JObj [("turnComplete", JBool false)])]
           [("turnComplete", JBool false)] (JBool false)
           (connected_world [] [])); reflexivity.
Defined.

(** X24.  A message without [serverContent] that has a [setupComplete] field
    yields one [setup_complete] envelope, after an info line in the log,
    whatever the field holds. *)
Theorem setup_complete_forwarded fields value w :
  lookup "serverContent" fields = None ->
  lookup "setupComplete" fields = Some value ->
  listening w = true ->
  let '(r, _, out) := step (GeminiFrame (Ok (JObj fields))) w in
  r = Ok tt /\
  down_sends out = [setup_complete] /\ up_sends out = [] /\
  hd_error out = Some (Log INFO "Gemini setup completed" NoArg).
Proof.
  intros Hc Hs Hl.
  unfold step, listen_frame, handle_gemini_message, client_send_json.
  unfold_monad. run_known.
  destruct (hd None (down_results w)) as [e|]; simpl.
  - destruct (class_of e); simpl; repeat split; reflexivity.
  - repeat split; reflexivity.
Qed.

Lemma setup_complete_forwarded_witness :
  let '(r, _, out) :=
    step (GeminiFrame (Ok (JObj [("setupComplete", JObj [])])))
         (connected_world [] []) in
  r = Ok tt /\
  down_sends out = [setup_complete] /\ up_sends out = [] /\
  hd_error out = Some (Log INFO "Gemini setup completed" NoArg).
Proof.
  apply (setup_complete_forwarded [("setupComplete", JObj [])] (JObj [])
           (connected_world [] [])); reflexivity.
Defined.
